(** * Backtesting engine: execution loop and performance metrics

    A shallow embedding of [src/backtest.py] ([run_backtest] and
    [compute_metrics]) and the properties its specification states.

    Numbers.  Python floats are modelled by exact rationals [Q]: the
    specification states its formulas over the reals and rounding is not
    represented.  Inside [compute_metrics] every division, mean, minimum and
    standard deviation goes through the extended values [ext] (a rational,
    an infinity or NaN), so that a zero denominator or an empty aggregate
    yields what NumPy yields there instead of a rational.  The execution
    loop divides only by the entry price; bars are validated upstream and a
    zero open price is outside the model.

    The square root and the power with a real exponent have no rational
    value in general: they are section variables of the metrics code.

    Rounding.  The execution loop is embedded a second time over the
    binary64 floats of the kernel, operation for operation, to evaluate it
    where the rounding of the program decides a statement. *)

From Stdlib Require Import PrimFloat.
From Stdlib Require Import String Ascii.
From Stdlib Require Import QArith Qabs Qminmax ZArith List Bool Lia Lqa.
From Stdlib Require Import Morphisms Setoid.
Import ListNotations.

Set Warnings "-inexact-float".

Local Open Scope Q_scope.

(** ** Exceptions and the error monad *)

(** [KeyError] and [IndexError] are the exceptions pandas raises on the
    paths below.  [InvalidConfig] and [InsufficientData] are the error
    taxonomy of the specification; no line of the source constructs them. *)
Inductive exception : Type :=
| KeyError (key : string)
| IndexError
| InvalidConfig (parameter : string)
| InsufficientData (bar_count : nat).

Inductive result (A : Type) : Type :=
| Ok (a : A)
| Raise (e : exception).

Arguments Ok {A} a.
Arguments Raise {A} e.

Definition bind {A B} (m : result A) (k : A -> result B) : result B :=
  match m with
  | Ok a => k a
  | Raise e => Raise e
  end.

Notation "x <- m ;; k" := (bind m (fun x => k))
  (at level 61, m at next level, right associativity).

(** The [for] loop over an index range, threading the loop state and
    stopping at the first exception. *)
Fixpoint for_range {S : Type} (body : S -> nat -> result S)
    (range : list nat) (st : S) : result S :=
  match range with
  | [] => Ok st
  | i :: rest => st' <- body st i ;; for_range body rest st'
  end.

(** ** Data model *)

Definition Timestamp := Z.
Bind Scope Z_scope with Timestamp.

Record BacktestConfig : Type := {
  initial_capital : Q;
  position_size_pct : Q;
  stop_loss_pct : Q;
  take_profit_pct : option Q;
  transaction_cost_pips : Q;
  leverage : Q
}.

(** [BacktestConfig()] with the dataclass defaults. *)
Definition default_config : BacktestConfig := {|
  initial_capital := 100000;
  position_size_pct := 0.10;
  stop_loss_pct := 0.005;
  take_profit_pct := None;
  transaction_cost_pips := 1.0;
  leverage := 1.0
|}.

Record Trade : Type := {
  date : Timestamp;
  direction : Z;
  entry_price : Q;
  exit_price : Q;
  stop_loss_price : Q;
  pnl_usd : Q;
  stopped_out : bool;
  position_size : Q
}.

(** One row of the input frame: the columns [run_backtest] reads. *)
Record Bar : Type := {
  Date : Timestamp;
  Open : Q;
  High : Q;
  Low : Q;
  Close : Q;
  ML_Signal : Z
}.

(** One entry of [equity_curve]: [{'Date': ..., 'Equity': ...}]. *)
Record EquityPoint : Type := {
  point_date : Timestamp;
  Equity : Q
}.

(** [df.iloc[i]]. *)
Definition iloc {A} (df : list A) (i : nat) : result A :=
  match nth_error df i with
  | Some row => Ok row
  | None => Raise IndexError
  end.

(** ** The execution loop *)

(** The values computed for one bar pair, lines 76-91. *)
Record trade_values : Type := {
  position_value : Q;
  v_position_size : Q;
  stop_price : Q;
  v_stopped_out : bool;
  actual_exit : Q;
  price_move : Q;
  v_pnl_usd : Q
}.

Definition pip : Q := 0.0001.

Definition simulate_trade (config : BacktestConfig) (transaction_cost : Q)
    (capital : Q) (signal : Z) (next_row : Bar) : trade_values :=
  let entry_price := Open next_row in
  let high := High next_row in
  let low := Low next_row in
  let exit_price := Close next_row in
  let position_value :=
    capital * position_size_pct config * leverage config in
  let position_size := position_value / entry_price in
  if (signal =? 1)%Z then
    let stop_price := entry_price * (1 - stop_loss_pct config) in
    let stopped_out := Qle_bool low stop_price in
    let actual_exit := if stopped_out then stop_price else exit_price in
    let price_move := actual_exit - entry_price - transaction_cost in
    {| position_value := position_value; v_position_size := position_size;
       stop_price := stop_price; v_stopped_out := stopped_out;
       actual_exit := actual_exit; price_move := price_move;
       v_pnl_usd := position_size * price_move |}
  else
    let stop_price := entry_price * (1 + stop_loss_pct config) in
    let stopped_out := Qle_bool stop_price high in
    let actual_exit := if stopped_out then stop_price else exit_price in
    let price_move := entry_price - actual_exit - transaction_cost in
    {| position_value := position_value; v_position_size := position_size;
       stop_price := stop_price; v_stopped_out := stopped_out;
       actual_exit := actual_exit; price_move := price_move;
       v_pnl_usd := position_size * price_move |}.

(** The mutable locals of [run_backtest] that the loop updates. *)
Record loop_state : Type := {
  trades : list Trade;
  capital : Q;
  equity_curve : list EquityPoint
}.

Definition loop_body (config : BacktestConfig) (transaction_cost : Q)
    (df : list Bar) (st : loop_state) (i : nat) : result loop_state :=
  row <- iloc df i ;;
  next_row <- iloc df (i + 1) ;;
  let signal := ML_Signal row in
  let v :=
    simulate_trade config transaction_cost (capital st) signal next_row in
  let capital' := capital st + v_pnl_usd v in
  Ok {| trades := trades st ++ [ {| date := Date next_row;
                                    direction := signal;
                                    entry_price := Open next_row;
                                    exit_price := actual_exit v;
                                    stop_loss_price := stop_price v;
                                    pnl_usd := v_pnl_usd v;
                                    stopped_out := v_stopped_out v;
                                    position_size := v_position_size v |} ];
        capital := capital';
        equity_curve := equity_curve st ++ [ {| point_date := Date next_row;
                                                Equity := capital' |} ] |}.

Definition initial_state (config : BacktestConfig) : loop_state :=
  {| trades := []; capital := initial_capital config; equity_curve := [] |}.

(** Lines 55-105: the state after the [for] loop. *)
Definition run_loop (df : list Bar) (config : BacktestConfig)
    : result loop_state :=
  let transaction_cost := transaction_cost_pips config * pip in
  for_range (loop_body config transaction_cost df)
            (seq 0 (length df - 1)) (initial_state config).

(** [pd.DataFrame(equity_curve).set_index('Date')]: a frame built from an
    empty list has no column, and [set_index] raises [KeyError]. *)
Definition set_index_Date (rows : list EquityPoint)
    : result (list EquityPoint) :=
  match rows with
  | [] => Raise (KeyError "Date")
  | _ :: _ => Ok rows
  end.

(** ** Extended values: the float results of the metrics

    IEEE arithmetic without rounding and without a negative zero: a finite
    value is an exact rational, a nonzero value divided by zero is an
    infinity of its sign, zero divided by zero is NaN, and NaN propagates. *)

Inductive ext : Type :=
| Fin (q : Q)
| PInf
| NInf
| NaN.

Definition Qltb (x y : Q) : bool := negb (Qle_bool y x).

Definition signed_inf (sign : comparison) : ext :=
  match sign with
  | Gt => PInf
  | Lt => NInf
  | Eq => NaN
  end.

Definition sign_mul (s t : comparison) : comparison :=
  match s, t with
  | Eq, _ | _, Eq => Eq
  | Gt, Gt | Lt, Lt => Gt
  | Gt, Lt | Lt, Gt => Lt
  end.

Definition xsign (a : ext) : comparison :=
  match a with
  | Fin q => q ?= 0
  | PInf => Gt
  | NInf => Lt
  | NaN => Eq
  end.

Definition xneg (a : ext) : ext :=
  match a with
  | Fin q => Fin (- q)
  | PInf => NInf
  | NInf => PInf
  | NaN => NaN
  end.

Definition xadd (a b : ext) : ext :=
  match a, b with
  | NaN, _ | _, NaN => NaN
  | Fin x, Fin y => Fin (x + y)
  | PInf, NInf | NInf, PInf => NaN
  | PInf, _ | _, PInf => PInf
  | NInf, _ | _, NInf => NInf
  end.

Definition xsub (a b : ext) : ext := xadd a (xneg b).

Definition xmul (a b : ext) : ext :=
  match a, b with
  | NaN, _ | _, NaN => NaN
  | Fin x, Fin y => Fin (x * y)
  | _, _ => signed_inf (sign_mul (xsign a) (xsign b))
  end.

Definition xdiv (a b : ext) : ext :=
  match a, b with
  | NaN, _ | _, NaN => NaN
  | Fin x, Fin y => if Qeq_bool y 0 then signed_inf (x ?= 0) else Fin (x / y)
  | Fin _, _ => Fin 0
  | _, Fin y =>
      signed_inf (sign_mul (xsign a) (if Qeq_bool y 0 then Gt else y ?= 0))
  | _, _ => NaN
  end.

Definition xabs (a : ext) : ext :=
  match a with
  | Fin q => Fin (Qabs q)
  | PInf | NInf => PInf
  | NaN => NaN
  end.

(** [a < b]; false as soon as one side is NaN. *)
Definition xltb (a b : ext) : bool :=
  match a, b with
  | NaN, _ | _, NaN => false
  | Fin x, Fin y => Qltb x y
  | _, NInf | PInf, _ => false
  | NInf, _ | _, PInf => true
  end.

(** [a == b]; false as soon as one side is NaN. *)
Definition xeqb (a b : ext) : bool :=
  match a, b with
  | Fin x, Fin y => Qeq_bool x y
  | PInf, PInf | NInf, NInf => true
  | _, _ => false
  end.

Definition xmin (a b : ext) : ext := if xltb b a then b else a.

(** Equality of extended values up to the representation of the rational. *)
Definition xeq (a b : ext) : Prop :=
  match a, b with
  | Fin x, Fin y => x == y
  | PInf, PInf | NInf, NInf | NaN, NaN => True
  | _, _ => False
  end.

Definition of_nat (n : nat) : ext := Fin (inject_Z (Z.of_nat n)).

(** ** Series operations of pandas *)

Definition Qsum (s : list Q) : Q := fold_left Qplus s 0.

Definition isna (a : ext) : bool :=
  match a with
  | NaN => true
  | _ => false
  end.

Definition dropna (s : list ext) : list ext :=
  filter (fun a => negb (isna a)) s.

(** [Series.sum], [Series.mean] and [Series.min] skip NaN; the mean and the
    minimum of nothing are NaN. *)
Definition series_sum (s : list ext) : ext :=
  fold_left xadd (dropna s) (Fin 0).

Definition series_mean (s : list ext) : ext :=
  xdiv (series_sum s) (of_nat (length (dropna s))).

Definition series_min (s : list ext) : ext :=
  match dropna s with
  | [] => NaN
  | a :: rest => fold_left xmin rest a
  end.

(** [Series.mean] of a float column without NaN. *)
Definition Qmean (s : list Q) : ext :=
  xdiv (Fin (Qsum s)) (of_nat (length s)).

Fixpoint cummax_from (m : Q) (s : list Q) : list Q :=
  match s with
  | [] => []
  | x :: rest => let m' := Qmax m x in m' :: cummax_from m' rest
  end.

(** [Series.cummax]. *)
Definition cummax (s : list Q) : list Q :=
  match s with
  | [] => []
  | x :: rest => x :: cummax_from x rest
  end.

(** [Series.pct_change]: NaN first, then [cur / prev - 1]. *)
Definition pct_change (s : list Q) : list ext :=
  match s with
  | [] => []
  | _ :: rest =>
      NaN :: map (fun '(prev, cur) => xsub (xdiv (Fin cur) (Fin prev)) (Fin 1))
                 (combine s rest)
  end.

(** [Series.iloc[-1]]. *)
Definition iloc_last (s : list Q) : result Q :=
  match s with
  | [] => Raise IndexError
  | _ :: _ => Ok (last s 0)
  end.

(** ** The trade ledger and the report *)

Inductive Direction_label : Type := LONG | SHORT.

(** One row of [trades_df]. *)
Record TradeRow : Type := {
  row_Date : Timestamp;
  Direction : Direction_label;
  Entry : Q;
  Exit : Q;
  Stop_Loss : Q;
  PnL_USD : Q;
  Stopped_Out : bool;
  Position_EUR : Q
}.

Definition trade_row (t : Trade) : TradeRow := {|
  row_Date := date t;
  Direction := if (direction t =? 1)%Z then LONG else SHORT;
  Entry := entry_price t;
  Exit := exit_price t;
  Stop_Loss := stop_loss_price t;
  PnL_USD := pnl_usd t;
  Stopped_Out := stopped_out t;
  Position_EUR := position_size t
|}.

(** The metrics dictionary, with the numbers that the source formats into
    strings. *)
Record Report : Type := {
  Total_Trades : nat;
  Win_Rate : ext;
  Total_PnL : Q;
  Total_Return : ext;
  Annualized_Return : ext;
  Max_Drawdown : ext;
  Sharpe_Ratio : ext;
  Calmar_Ratio : ext;
  Profit_Factor : ext;
  Avg_Win : ext;
  Avg_Loss : ext;
  Stop_outs : nat;
  Stop_out_Rate : ext
}.

Record Result : Type := {
  r_trades : list TradeRow;
  r_equity : list EquityPoint;
  r_metrics : Report;
  r_config : BacktestConfig
}.

Section Metrics.

(** [np.sqrt] and [**] on floats. *)
Variable sqrt : ext -> ext.
Variable pow : ext -> ext -> ext.

(** [Series.std] (sample standard deviation, [ddof = 1]); NaN below two
    values. *)
Definition series_std (s : list ext) : ext :=
  let v := dropna s in
  let n := length v in
  if (n <=? 1)%nat then NaN
  else
    let m := series_mean v in
    let squares := map (fun x => xmul (xsub x m) (xsub x m)) v in
    sqrt (xdiv (fold_left xadd squares (Fin 0)) (of_nat (n - 1))).

(** Line 158. *)
Definition annual_return_of (equity : list Q) : result ext :=
  final <- iloc_last equity ;;
  first <- iloc equity 0 ;;
  Ok (xsub (pow (xdiv (Fin final) (Fin first))
                (xdiv (Fin 252) (of_nat (length equity))))
           (Fin 1)).

(** Lines 133-177.  The two frames are taken with their columns present,
    whatever their number of rows. *)
Definition compute_metrics (trades_df : list TradeRow)
    (equity_df : list EquityPoint) (config : BacktestConfig)
    : result Report :=
  let pnl := map PnL_USD trades_df in
  let equity := map Equity equity_df in
  let total_trades := length trades_df in
  let winners := length (filter (fun p => Qltb 0 p) pnl) in
  let losers := length (filter (fun p => Qle_bool p 0) pnl) in
  let win_rate :=
    if (0 <? total_trades)%nat
    then xdiv (of_nat winners) (of_nat total_trades) else Fin 0 in
  let total_pnl := Qsum pnl in
  let avg_win :=
    if (0 <? winners)%nat
    then Qmean (filter (fun p => Qltb 0 p) pnl) else Fin 0 in
  let avg_loss :=
    if (0 <? losers)%nat
    then Qmean (filter (fun p => Qle_bool p 0) pnl) else Fin 0 in
  let profit_factor :=
    if (0 <? losers)%nat
    then xdiv (Fin (Qsum (filter (fun p => Qltb 0 p) pnl)))
              (Fin (Qabs (Qsum (filter (fun p => Qle_bool p 0) pnl))))
    else PInf in
  let rolling_max := cummax equity in
  let drawdown :=
    map (fun '(e, m) => xdiv (Fin (e - m)) (Fin m))
        (combine equity rolling_max) in
  let max_drawdown := series_min drawdown in
  let daily_returns := dropna (pct_change equity) in
  let sharpe :=
    if xltb (Fin 0) (series_std daily_returns)
    then xmul (xdiv (series_mean daily_returns) (series_std daily_returns))
              (sqrt (Fin 252))
    else Fin 0 in
  annual_return <- annual_return_of equity ;;
  let calmar :=
    if negb (xeqb max_drawdown (Fin 0))
    then xdiv annual_return (xabs max_drawdown) else PInf in
  let stop_outs := length (filter Stopped_Out trades_df) in
  final <- iloc_last equity ;;
  Ok {| Total_Trades := total_trades;
        Win_Rate := win_rate;
        Total_PnL := total_pnl;
        Total_Return :=
          xsub (xdiv (Fin final) (Fin (initial_capital config))) (Fin 1);
        Annualized_Return := annual_return;
        Max_Drawdown := max_drawdown;
        Sharpe_Ratio := sharpe;
        Calmar_Ratio := calmar;
        Profit_Factor := profit_factor;
        Avg_Win := avg_win;
        Avg_Loss := avg_loss;
        Stop_outs := stop_outs;
        Stop_out_Rate := xdiv (of_nat stop_outs) (of_nat total_trades) |}.

Definition run_backtest (df : list Bar) (config : option BacktestConfig)
    : result Result :=
  let config :=
    match config with
    | None => default_config
    | Some c => c
    end in
  st <- run_loop df config ;;
  equity_df <- set_index_Date (equity_curve st) ;;
  let trades_df := map trade_row (trades st) in
  metrics <- compute_metrics trades_df equity_df config ;;
  Ok {| r_trades := trades_df;
        r_equity := equity_df;
        r_metrics := metrics;
        r_config := config |}.

End Metrics.

(** Exact instances of the two float primitives, defined where the result is
    rational (an integral exponent, a square of a rational) and NaN
    elsewhere; concrete runs are evaluated with them. *)
Definition pow_rational (a b : ext) : ext :=
  match a, b with
  | Fin x, Fin e =>
      let e' := Qred e in
      if ((Qden e' =? 1)%positive
          && (negb (Qeq_bool x 0) || (0 <=? Qnum e')%Z))%bool
      then Fin (Qpower (Qred x) (Qnum e'))
      else NaN
  | _, _ => NaN
  end.

Definition sqrt_rational (a : ext) : ext :=
  match a with
  | Fin x =>
      let x' := Qred x in
      let n := Z.sqrt (Qnum x') in
      let d := Pos.sqrt (Qden x') in
      if ((n * n =? Qnum x')%Z && (d * d =? Qden x')%positive)%bool
      then Fin (n # d)
      else NaN
  | PInf => PInf
  | _ => NaN
  end.

(** * Vocabulary of the statements *)

(** The trade that one iteration appends to the ledger. *)
Definition recorded_trade (row next_row : Bar) (v : trade_values) : Trade := {|
  date := Date next_row;
  direction := ML_Signal row;
  entry_price := Open next_row;
  exit_price := actual_exit v;
  stop_loss_price := stop_price v;
  pnl_usd := v_pnl_usd v;
  stopped_out := v_stopped_out v;
  position_size := v_position_size v
|}.

(** The running capital when trade [i] is entered, read off the equity
    curve: the initial capital, then the previous equity point. *)
Definition capital_before (config : BacktestConfig)
    (curve : list EquityPoint) (i : nat) : Q :=
  match i with
  | O => initial_capital config
  | S j => nth j (map Equity curve) 0
  end.

Definition transaction_cost_of (config : BacktestConfig) : Q :=
  transaction_cost_pips config * pip.

(** What the ledger and the curve hold at index [i]. *)
Definition entry_spec (config : BacktestConfig) (df : list Bar)
    (ts : list Trade) (curve : list EquityPoint) (i : nat) : Prop :=
  exists row next_row,
    nth_error df i = Some row /\
    nth_error df (S i) = Some next_row /\
    let v := simulate_trade config (transaction_cost_of config)
                            (capital_before config curve i)
                            (ML_Signal row) next_row in
    nth_error ts i = Some (recorded_trade row next_row v) /\
    nth_error curve i =
      Some {| point_date := Date next_row;
              Equity := capital_before config curve i + v_pnl_usd v |}.

(** The loop invariant after [n] iterations. *)
Definition loop_inv (config : BacktestConfig) (df : list Bar)
    (n : nat) (st : loop_state) : Prop :=
  length (trades st) = n /\
  length (equity_curve st) = n /\
  capital st = capital_before config (equity_curve st) n /\
  capital st == initial_capital config + Qsum (map pnl_usd (trades st)) /\
  forall i, (i < n)%nat ->
    entry_spec config df (trades st) (equity_curve st) i.

(** The config a run uses: the argument, or the defaults when it is [None]. *)
Definition effective_config (config : option BacktestConfig)
    : BacktestConfig :=
  match config with
  | None => default_config
  | Some c => c
  end.

(** The domain of a config, as the data model of the specification gives
    it. *)
Definition config_domain (config : BacktestConfig) : Prop :=
  0 < initial_capital config /\
  (0 < position_size_pct config /\ position_size_pct config <= 1) /\
  0 <= stop_loss_pct config /\
  0 <= transaction_cost_pips config /\
  0 < leverage config.

(** Two configs that agree on every field but [take_profit_pct]. *)
Definition agree_except_take_profit (c1 c2 : BacktestConfig) : Prop :=
  initial_capital c1 = initial_capital c2 /\
  position_size_pct c1 = position_size_pct c2 /\
  stop_loss_pct c1 = stop_loss_pct c2 /\
  transaction_cost_pips c1 = transaction_cost_pips c2 /\
  leverage c1 = leverage c2.

(** What a run hands to its caller besides the config itself. *)
Definition outputs (x : result Result)
    : result (list TradeRow * list EquityPoint * Report) :=
  r <- x ;; Ok (r_trades r, r_equity r, r_metrics r).

(** The annualized return as the specification words it: the base of the
    power is the final equity over the initial capital. *)
Definition annual_return_spec (pow : ext -> ext -> ext)
    (config : BacktestConfig) (equity : list Q) : result ext :=
  final <- iloc_last equity ;;
  Ok (xsub (pow (xdiv (Fin final) (Fin (initial_capital config)))
                (xdiv (Fin 252) (of_nat (length equity))))
           (Fin 1)).

(** ** Concrete inputs *)

(** The config of the concrete scenario; the scenario leaves the take-profit
    field open. *)
Definition scenario_config (take_profit : option Q) : BacktestConfig := {|
  initial_capital := 100000;
  position_size_pct := 0.10;
  stop_loss_pct := 0.005;
  take_profit_pct := take_profit;
  transaction_cost_pips := 1.0;
  leverage := 1.0
|}.

(** The bar pair of the concrete scenario of the specification: a long
    signal on the first bar, the given prices on the second. *)
Definition scenario_bars : list Bar := [
  {| Date := 1; Open := 1.0990; High := 1.1005; Low := 1.0985;
     Close := 1.1000; ML_Signal := 1 |};
  {| Date := 2; Open := 1.1000; High := 1.1020; Low := 1.0930;
     Close := 1.1010; ML_Signal := -1 |}
].

(** Three bars: a long trade stopped out, then a short trade closed at the
    end of the day. *)
Definition sample_bars : list Bar :=
  scenario_bars ++ [
  {| Date := 3; Open := 1.1000; High := 1.1040; Low := 1.0990;
     Close := 1.0980; ML_Signal := 1 |}
].

(** Three well-formed bars on which both trades win: a short trade closed
    below its entry, then a long trade closed above its entry. *)
Definition winning_bars : list Bar := [
  {| Date := 1; Open := 1.1010; High := 1.1015; Low := 1.0995;
     Close := 1.1000; ML_Signal := -1 |};
  {| Date := 2; Open := 1.1000; High := 1.1040; Low := 1.0970;
     Close := 1.0980; ML_Signal := 1 |};
  {| Date := 3; Open := 1.0980; High := 1.1030; Low := 1.0975;
     Close := 1.1020; ML_Signal := 1 |}
].

(** A config outside the documented domain on every constrained field. *)
Definition out_of_domain_config : BacktestConfig := {|
  initial_capital := -100;
  position_size_pct := 2;
  stop_loss_pct := -0.01;
  take_profit_pct := None;
  transaction_cost_pips := 1.0;
  leverage := -1
|}.

(** ** Conditions on the bars *)

(** A bar whose close lies between its low and its high. *)
Definition close_in_range (b : Bar) : Prop :=
  Low b <= Close b /\ Close b <= High b.

(** The loss of a trade stopped out at this bar, position value times
    [stop_loss_pct + cost / open], is smaller than the capital it is sized
    on. *)
Definition stop_loss_below_capital (config : BacktestConfig) (b : Bar)
    : Prop :=
  position_size_pct config * leverage config
    * (Open b * stop_loss_pct config + transaction_cost_of config)
  < Open b.

(** Two bars with the same date and the same prices. *)
Definition same_prices (b b' : Bar) : Prop :=
  Date b = Date b' /\ Open b = Open b' /\ High b = High b' /\
  Low b = Low b' /\ Close b = Close b'.

(** Two frames that agree on the signal of every bar but the last, and on
    the date and the prices of every bar but the first. *)
Definition same_used_inputs (df df' : list Bar) : Prop :=
  length df = length df' /\
  forall i row row',
    nth_error df i = Some row -> nth_error df' i = Some row' ->
    ((S i < length df)%nat -> ML_Signal row = ML_Signal row') /\
    ((0 < i)%nat -> same_prices row row').

(** A series that never declines: every value is at least the one before
    it, starting from [m]. *)
Fixpoint nondecreasing_from (m : Q) (s : list Q) : Prop :=
  match s with
  | [] => True
  | x :: rest => m <= x /\ nondecreasing_from x rest
  end.

Definition never_declines (s : list Q) : Prop :=
  match s with
  | [] => True
  | x :: rest => nondecreasing_from x rest
  end.

(** * The callers: export paths, data cleaning and plotted series *)

(** ** [str.replace] *)

(** [s.replace(old, new)]: every occurrence of [old] in [s], found from left
    to right without overlap, becomes [new].  [skip] counts the characters
    of a matched occurrence that remain to be passed over.  An empty [old]
    matches before every character and at the end. *)
Fixpoint replace_from (skip : nat) (old new s : string) : string :=
  match s with
  | EmptyString =>
      match skip, old with
      | O, EmptyString => new
      | _, _ => EmptyString
      end
  | String c rest =>
      match skip with
      | S k => replace_from k old new rest
      | O =>
          if prefix old s then
            match old with
            | EmptyString =>
                (new ++ String c (replace_from 0 old new rest))%string
            | String _ old' =>
                (new ++ replace_from (String.length old') old new rest)%string
            end
          else String c (replace_from 0 old new rest)
      end
  end.

Definition str_replace (s old new : string) : string :=
  replace_from 0 old new s.

(** [old] occurs in [s]. *)
Definition occurs (old s : string) : Prop :=
  exists a b, s = (a ++ old ++ b)%string.

(** ** [main]: the paths of the two CSV exports, lines 72 and 76 *)

Definition trades_csv_path (output : string) : string :=
  str_replace output ".png" "_trades.csv".

Definition equity_csv_path (output : string) : string :=
  str_replace output ".png" "_equity.csv".

(** ** [load_eurusd]: cleaning of the price columns, lines 22-23 *)

Definition double_quote : string := String "034"%char EmptyString.

(** The comma becomes a dot, then the double quotes are removed. *)
Definition clean_number (s : string) : string :=
  str_replace (str_replace s "," ".") double_quote EmptyString.

(** ** [plot_full_report]: the series of the panels 2 and 5 *)

Definition GREEN : string := "#3fb950".
Definition RED : string := "#f85149".

(** Line 100: [[GREEN if v >= 0 else RED for v in pnl]]. *)
Definition colors (pnl : list Q) : list string :=
  map (fun v => if Qle_bool 0 v then GREEN else RED) pnl.

Fixpoint cumsum_from (acc : nat) (s : list bool) : list nat :=
  match s with
  | [] => []
  | b :: rest =>
      let acc' := (acc + (if b then 1 else 0))%nat in
      acc' :: cumsum_from acc' rest
  end.

(** [Series.cumsum] of a boolean series. *)
Definition cumsum (s : list bool) : list nat := cumsum_from 0 s.

(** Lines 140-141. *)
Definition cum_wins (pnl : list Q) : list nat :=
  cumsum (map (fun p => Qltb 0 p) pnl).

Definition cum_loss (pnl : list Q) : list nat :=
  cumsum (map (fun p => Qle_bool p 0) pnl).

(** * The execution loop in binary64

    Lines 55-105 once more, over the floats of the program: every literal is
    the nearest binary64 value, every operation rounds to nearest. *)

Record BacktestConfig64 : Type := {
  initial_capital64 : float;
  position_size_pct64 : float;
  stop_loss_pct64 : float;
  take_profit_pct64 : option float;
  transaction_cost_pips64 : float;
  leverage64 : float
}.

Definition default_config64 : BacktestConfig64 := {|
  initial_capital64 := 100000;
  position_size_pct64 := 0.10;
  stop_loss_pct64 := 0.005;
  take_profit_pct64 := None;
  transaction_cost_pips64 := 1.0;
  leverage64 := 1.0
|}.

Record Trade64 : Type := {
  date64 : Timestamp;
  direction64 : Z;
  entry_price64 : float;
  exit_price64 : float;
  stop_loss_price64 : float;
  pnl_usd64 : float;
  stopped_out64 : bool;
  position_size64 : float
}.

Record Bar64 : Type := {
  Date64 : Timestamp;
  Open64 : float;
  High64 : float;
  Low64 : float;
  Close64 : float;
  ML_Signal64 : Z
}.

Record EquityPoint64 : Type := {
  point_date64 : Timestamp;
  Equity64 : float
}.

Record loop_state64 : Type := {
  trades64 : list Trade64;
  capital64 : float;
  equity_curve64 : list EquityPoint64
}.

Definition pip64 : float := 0.0001.

Definition loop_body64 (config : BacktestConfig64) (transaction_cost : float)
    (df : list Bar64) (st : loop_state64) (i : nat) : result loop_state64 :=
  row <- iloc df i ;;
  next_row <- iloc df (i + 1) ;;
  let signal := ML_Signal64 row in
  let entry_price := Open64 next_row in
  let high := High64 next_row in
  let low := Low64 next_row in
  let exit_price := Close64 next_row in
  let position_value :=
    (capital64 st * position_size_pct64 config * leverage64 config)%float in
  let position_size := (position_value / entry_price)%float in
  let '(stop_price, stopped_out, actual_exit, price_move) :=
    if (signal =? 1)%Z then
      let stop_price := (entry_price * (1 - stop_loss_pct64 config))%float in
      let stopped_out := (low <=? stop_price)%float in
      let actual_exit := if stopped_out then stop_price else exit_price in
      (stop_price, stopped_out, actual_exit,
       (actual_exit - entry_price - transaction_cost)%float)
    else
      let stop_price := (entry_price * (1 + stop_loss_pct64 config))%float in
      let stopped_out := (stop_price <=? high)%float in
      let actual_exit := if stopped_out then stop_price else exit_price in
      (stop_price, stopped_out, actual_exit,
       (entry_price - actual_exit - transaction_cost)%float) in
  let pnl_usd := (position_size * price_move)%float in
  let capital' := (capital64 st + pnl_usd)%float in
  Ok {| trades64 := trades64 st ++ [ {| date64 := Date64 next_row;
                                        direction64 := signal;
                                        entry_price64 := entry_price;
                                        exit_price64 := actual_exit;
                                        stop_loss_price64 := stop_price;
                                        pnl_usd64 := pnl_usd;
                                        stopped_out64 := stopped_out;
                                        position_size64 := position_size |} ];
        capital64 := capital';
        equity_curve64 :=
          equity_curve64 st ++ [ {| point_date64 := Date64 next_row;
                                    Equity64 := capital' |} ] |}.

Definition run_loop64 (df : list Bar64) (config : BacktestConfig64)
    : result loop_state64 :=
  let transaction_cost := (transaction_cost_pips64 config * pip64)%float in
  for_range (loop_body64 config transaction_cost df)
            (seq 0 (length df - 1))
            {| trades64 := []; capital64 := initial_capital64 config;
               equity_curve64 := [] |}.

(** [sum(...)] of floats: the additions from left to right, from 0. *)
Definition fsum (s : list float) : float := fold_left PrimFloat.add s 0%float.

(** The two bars of the concrete scenario, then a bar on which the short
    trade of the second signal is closed at the end of the day. *)
Definition rounding_bars : list Bar64 := [
  {| Date64 := 1; Open64 := 1.0990; High64 := 1.1005; Low64 := 1.0985;
     Close64 := 1.1000; ML_Signal64 := 1 |};
  {| Date64 := 2; Open64 := 1.1000; High64 := 1.1020; Low64 := 1.0930;
     Close64 := 1.1010; ML_Signal64 := -1 |};
  {| Date64 := 3; Open64 := 1.0970; High64 := 1.0980; Low64 := 1.0950;
     Close64 := 1.0960; ML_Signal64 := 1 |}
].

(** The default config but for a negative leverage. *)
Definition negative_leverage_config : BacktestConfig := {|
  initial_capital := 100000;
  position_size_pct := 0.10;
  stop_loss_pct := 0.005;
  take_profit_pct := None;
  transaction_cost_pips := 1.0;
  leverage := -1
|}.

(** * Properties of the execution loop *)

Lemma for_range_app {S} (body : S -> nat -> result S) (r1 r2 : list nat) :
  forall st,
    for_range body (r1 ++ r2) st =
    (st' <- for_range body r1 st ;; for_range body r2 st').
Proof.
  induction r1 as [|i r1 IH]; intros st; simpl; [reflexivity|].
  destruct (body st i) as [st'|e]; simpl; [apply IH | reflexivity].
Qed.

Lemma for_range_snoc {S} (body : S -> nat -> result S) (n : nat) (st : S) :
  for_range body (seq 0 (Datatypes.S n)) st =
  (st' <- for_range body (seq 0 n) st ;; body st' n).
Proof.
  rewrite seq_S, for_range_app. simpl.
  destruct (for_range body (seq 0 n) st) as [st'|e]; simpl; [|reflexivity].
  destruct (body st' n); reflexivity.
Qed.

Section Loop.

Variable config : BacktestConfig.
Variable df : list Bar.

Let cost := transaction_cost_of config.

Lemma capital_before_app (curve : list EquityPoint) (p : EquityPoint) i :
  (i <= length curve)%nat ->
  capital_before config (curve ++ [p]) i = capital_before config curve i.
Proof.
  destruct i as [|j]; simpl; [reflexivity|]. intros Hj.
  rewrite map_app, app_nth1; [reflexivity|].
  rewrite length_map. lia.
Qed.

Lemma capital_before_last (curve : list EquityPoint) (p : EquityPoint) :
  capital_before config (curve ++ [p]) (S (length curve)) = Equity p.
Proof.
  simpl. rewrite map_app, app_nth2; rewrite length_map; [|lia].
  rewrite Nat.sub_diag. reflexivity.
Qed.

Lemma Qsum_snoc (s : list Q) (x : Q) : Qsum (s ++ [x]) = Qsum s + x.
Proof. unfold Qsum. rewrite fold_left_app. reflexivity. Qed.

Lemma loop_body_inv (n : nat) (st : loop_state) :
  (S n < length df)%nat ->
  loop_inv config df n st ->
  exists st',
    loop_body config cost df st n = Ok st' /\ loop_inv config df (S n) st'.
Proof.
  intros Hn (Ht & He & Hc & Hsum & Hi).
  destruct (nth_error df n) as [row|] eqn:Hrow;
    [|apply nth_error_None in Hrow; lia].
  destruct (nth_error df (S n)) as [next_row|] eqn:Hnext;
    [|apply nth_error_None in Hnext; lia].
  unfold loop_body, iloc. rewrite Nat.add_1_r, Hrow, Hnext. cbn [bind].
  eexists. split; [reflexivity|].
  set (v := simulate_trade config cost (capital st) (ML_Signal row) next_row).
  unfold loop_inv. cbn [trades equity_curve capital].
  rewrite !length_app, Ht, He. cbn [length].
  split; [lia|]. split; [lia|]. split; [|split].
  - rewrite <- He. rewrite capital_before_last. reflexivity.
  - rewrite map_app. cbn [map pnl_usd]. rewrite Qsum_snoc, Hsum. ring.
  - intros i Hlt. unfold entry_spec.
    rewrite capital_before_app by lia.
    destruct (Nat.eq_dec i n) as [->|Hne].
    + exists row, next_row.
      rewrite !nth_error_app2 by lia. rewrite Ht, He, Nat.sub_diag, <- Hc.
      repeat split; trivial.
    + destruct (Hi i ltac:(lia)) as (r & nr & Hr & Hnr & Htr & Heq).
      exists r, nr. rewrite !nth_error_app1 by lia.
      repeat split; trivial.
Qed.

Lemma loop_prefix_inv (n : nat) :
  (n <= length df - 1)%nat ->
  exists st,
    for_range (loop_body config cost df) (seq 0 n) (initial_state config)
      = Ok st /\ loop_inv config df n st.
Proof.
  induction n as [|n IH]; intros Hn.
  - exists (initial_state config). split; [reflexivity|].
    unfold loop_inv; simpl. repeat split; trivial.
    + unfold Qsum; simpl. ring.
    + intros i Hi; lia.
  - destruct IH as (st & Hrun & Hinv); [lia|].
    destruct (loop_body_inv n st) as (st' & Hbody & Hinv'); [lia|exact Hinv|].
    exists st'. split; [|exact Hinv'].
    rewrite for_range_snoc, Hrun. exact Hbody.
Qed.

(** The loop always completes, with the invariant at [len(df) - 1]. *)
Lemma run_loop_inv :
  exists st,
    run_loop df config = Ok st /\ loop_inv config df (length df - 1) st.
Proof. apply loop_prefix_inv. lia. Qed.

End Loop.

(** * From the loop to [run_backtest] *)

Section Runs.

Variable sqrt : ext -> ext.
Variable pow : ext -> ext -> ext.

Lemma compute_metrics_total trades_df equity_df config :
  equity_df <> [] ->
  exists m, compute_metrics sqrt pow trades_df equity_df config = Ok m.
Proof.
  intros Hne. destruct equity_df as [|p rest]; [congruence|].
  unfold compute_metrics, annual_return_of, iloc_last, iloc. simpl map.
  cbn [nth_error bind]. eexists. reflexivity.
Qed.

(** A run over at least two bars returns the ledger and the curve that the
    loop built. *)
Lemma run_backtest_ok df config :
  (2 <= length df)%nat ->
  exists st m,
    run_loop df (effective_config config) = Ok st /\
    loop_inv (effective_config config) df (length df - 1) st /\
    run_backtest sqrt pow df config =
      Ok {| r_trades := map trade_row (trades st);
            r_equity := equity_curve st;
            r_metrics := m;
            r_config := effective_config config |}.
Proof.
  intros Hlen.
  destruct (run_loop_inv (effective_config config) df)
    as (st & Hrun & Hinv).
  assert (Hcurve : equity_curve st <> []).
  { destruct Hinv as (_ & He & _). intros Hnil. rewrite Hnil in He.
    simpl in He. lia. }
  destruct (compute_metrics_total (map trade_row (trades st))
              (equity_curve st) (effective_config config) Hcurve)
    as (m & Hm).
  exists st, m. split; [exact Hrun|]. split; [exact Hinv|].
  unfold run_backtest. cbv zeta.
  change (match config with Some c => c | None => default_config end)
    with (effective_config config).
  rewrite Hrun. cbn [bind].
  destruct (equity_curve st) as [|p rest] eqn:Hc; [congruence|].
  cbn [set_index_Date bind]. rewrite Hm. reflexivity.
Qed.

(** With fewer than two bars the loop body never runs and building the
    equity frame raises. *)
Lemma run_backtest_short df config :
  (length df < 2)%nat ->
  run_backtest sqrt pow df config = Raise (KeyError "Date").
Proof.
  intros Hlen. unfold run_backtest, run_loop.
  replace (length df - 1)%nat with 0%nat by lia. reflexivity.
Qed.

Lemma run_backtest_inv df config r :
  run_backtest sqrt pow df config = Ok r ->
  (2 <= length df)%nat /\
  exists st,
    run_loop df (effective_config config) = Ok st /\
    loop_inv (effective_config config) df (length df - 1) st /\
    r_trades r = map trade_row (trades st) /\
    r_equity r = equity_curve st /\
    r_config r = effective_config config.
Proof.
  intros Hr.
  destruct (le_lt_dec 2 (length df)) as [Hlen|Hlen].
  - split; [exact Hlen|].
    destruct (run_backtest_ok df config Hlen) as (st & m & Hrun & Hinv & Hok).
    rewrite Hok in Hr. injection Hr as <-. exists st. simpl. auto.
  - rewrite run_backtest_short in Hr by exact Hlen. discriminate.
Qed.

End Runs.

(** * The claims *)

(** C2, as stated, fails: on an empty bar sequence the run raises
    [KeyError] on the ['Date'] column, which is no [InsufficientData] error
    and carries no bar count. *)
Lemma C2_counterexample :
  run_backtest sqrt_rational pow_rational [] None = Raise (KeyError "Date") /\
  ~ exists n,
      run_backtest sqrt_rational pow_rational [] None
        = Raise (InsufficientData n).
Proof.
  split; [reflexivity|]. intros (n & H). discriminate H.
Qed.

(** C2, amended: for every bar sequence with fewer than 2 bars the run
    fails with the [KeyError] that building the equity table from an empty
    curve raises; no result, hence no partial ledger or equity curve, is
    returned. *)
Theorem C2_short_input_raises_KeyError sqrt pow df config :
  (length df < 2)%nat ->
  run_backtest sqrt pow df config = Raise (KeyError "Date") /\
  forall r, run_backtest sqrt pow df config <> Ok r.
Proof.
  intros Hlen. rewrite (run_backtest_short sqrt pow df config Hlen).
  split; [reflexivity|]. intros r H. discriminate H.
Qed.

Lemma C2_witness :
  (length (firstn 1 scenario_bars) < 2)%nat /\
  run_backtest sqrt_rational pow_rational (firstn 1 scenario_bars) None
    = Raise (KeyError "Date").
Proof.
  split; [simpl; lia|].
  apply (C2_short_input_raises_KeyError sqrt_rational pow_rational
           (firstn 1 scenario_bars) None).
  simpl; lia.
Defined.

(** C3, as stated, fails: a config with a non-positive capital, a position
    fraction above 1, a negative stop-loss and a negative leverage is
    accepted, and the run returns a ledger. *)
Lemma C3_counterexample :
  (initial_capital out_of_domain_config <= 0 /\
   1 < position_size_pct out_of_domain_config /\
   stop_loss_pct out_of_domain_config < 0 /\
   leverage out_of_domain_config <= 0) /\
  (exists r,
     run_backtest sqrt_rational pow_rational scenario_bars
       (Some out_of_domain_config) = Ok r /\
     length (r_trades r) = 1%nat) /\
  ~ exists p,
      run_backtest sqrt_rational pow_rational scenario_bars
        (Some out_of_domain_config) = Raise (InvalidConfig p).
Proof.
  destruct (run_backtest_ok sqrt_rational pow_rational scenario_bars
              (Some out_of_domain_config))
    as (st & m & _ & (Ht & _) & Hok); [simpl; lia|].
  split; [|split].
  - repeat split; vm_compute; congruence.
  - eexists. split; [exact Hok|]. cbn [r_trades].
    rewrite length_map. exact Ht.
  - intros (p & H). rewrite Hok in H. discriminate H.
Qed.

(** C3, amended: the engine does not validate the config.  For every
    config, in or out of the documented domain, a run over at least 2 bars
    completes on the values as given and returns one trade and one equity
    point per bar pair; no [InvalidConfig] error is raised. *)
Theorem C3_config_is_not_validated sqrt pow df config :
  (2 <= length df)%nat ->
  exists r,
    run_backtest sqrt pow df (Some config) = Ok r /\
    r_config r = config /\
    length (r_trades r) = (length df - 1)%nat /\
    length (r_equity r) = (length df - 1)%nat.
Proof.
  intros Hlen.
  destruct (run_backtest_ok sqrt pow df (Some config) Hlen)
    as (st & m & _ & (Ht & He & _) & Hok).
  eexists. split; [exact Hok|]. cbn [r_config r_trades r_equity].
  rewrite length_map. auto.
Qed.

Lemma C3_witness :
  (2 <= length scenario_bars)%nat /\
  exists r,
    run_backtest sqrt_rational pow_rational scenario_bars
      (Some out_of_domain_config) = Ok r /\
    r_config r = out_of_domain_config /\
    length (r_trades r) = (length scenario_bars - 1)%nat /\
    length (r_equity r) = (length scenario_bars - 1)%nat.
Proof.
  split; [simpl; lia|].
  apply (C3_config_is_not_validated sqrt_rational pow_rational
           scenario_bars out_of_domain_config).
  simpl; lia.
Defined.

(** C8: over at least 2 bars the run returns a ledger and an equity curve
    of [len(bars) - 1] entries each, and entry [i] of both is the one of the
    bar pair [(i, i + 1)]: it carries the date of bar [i + 1], and the trade
    is entered at that bar's open. *)
Theorem C8_sequence_length sqrt pow df config :
  (2 <= length df)%nat ->
  exists r,
    run_backtest sqrt pow df config = Ok r /\
    length (r_trades r) = (length df - 1)%nat /\
    length (r_equity r) = (length df - 1)%nat /\
    forall i, (i < length df - 1)%nat ->
      exists next_row t p,
        nth_error df (S i) = Some next_row /\
        nth_error (r_trades r) i = Some t /\
        nth_error (r_equity r) i = Some p /\
        row_Date t = Date next_row /\
        Entry t = Open next_row /\
        point_date p = Date next_row.
Proof.
  intros Hlen.
  destruct (run_backtest_ok sqrt pow df config Hlen)
    as (st & m & _ & (Ht & He & _ & _ & Hi) & Hok).
  eexists. split; [exact Hok|]. cbn [r_trades r_equity].
  rewrite length_map. repeat split; trivial.
  intros i Hlt.
  destruct (Hi i Hlt) as (row & next_row & _ & Hnext & Htr & Heq).
  eexists next_row, _, _. split; [exact Hnext|].
  split; [apply map_nth_error; exact Htr|].
  split; [exact Heq|]. repeat split.
Qed.

Lemma C8_witness :
  (2 <= length sample_bars)%nat /\
  exists r,
    run_backtest sqrt_rational pow_rational sample_bars None = Ok r /\
    length (r_trades r) = 2%nat /\
    length (r_equity r) = 2%nat.
Proof.
  split; [simpl; lia|].
  destruct (C8_sequence_length sqrt_rational pow_rational sample_bars None)
    as (r & Hr & Ht & He & _); [simpl; lia|].
  exists r. auto.
Defined.

(** ** One trade *)

Lemma simulate_trade_long config cost capital next_row :
  let v := simulate_trade config cost capital 1 next_row in
  stop_price v = Open next_row * (1 - stop_loss_pct config) /\
  v_stopped_out v = Qle_bool (Low next_row) (stop_price v) /\
  actual_exit v = (if v_stopped_out v then stop_price v else Close next_row) /\
  price_move v = actual_exit v - Open next_row - cost.
Proof. repeat split. Qed.

Lemma simulate_trade_short config cost capital signal next_row :
  signal <> 1%Z ->
  let v := simulate_trade config cost capital signal next_row in
  stop_price v = Open next_row * (1 + stop_loss_pct config) /\
  v_stopped_out v = Qle_bool (stop_price v) (High next_row) /\
  actual_exit v = (if v_stopped_out v then stop_price v else Close next_row) /\
  price_move v = Open next_row - actual_exit v - cost.
Proof.
  intros Hs. unfold simulate_trade.
  destruct (Z.eqb_spec signal 1) as [->|_]; [congruence|].
  repeat split.
Qed.

Lemma simulate_trade_pnl config cost capital signal next_row :
  let v := simulate_trade config cost capital signal next_row in
  position_value v = capital * position_size_pct config * leverage config /\
  v_position_size v = position_value v / Open next_row /\
  v_pnl_usd v = v_position_size v * price_move v.
Proof.
  unfold simulate_trade. destruct (signal =? 1)%Z; repeat split.
Qed.

Lemma position_size_positive config cost capital signal next_row :
  0 < position_size_pct config -> 0 < leverage config ->
  0 < capital -> 0 < Open next_row ->
  0 < v_position_size (simulate_trade config cost capital signal next_row).
Proof.
  intros Hp Hl Hc Ho.
  destruct (simulate_trade_pnl config cost capital signal next_row)
    as (Hv & Hs & _).
  cbv zeta in *. rewrite Hs, Hv. unfold Qdiv.
  apply Qmult_lt_0_compat; [|apply Qinv_lt_0_compat; exact Ho].
  repeat apply Qmult_lt_0_compat; assumption.
Qed.

Lemma stopped_price_move_negative config cost capital signal next_row :
  0 <= stop_loss_pct config -> 0 <= cost -> 0 < Open next_row ->
  0 < stop_loss_pct config \/ 0 < cost ->
  let v := simulate_trade config cost capital signal next_row in
  v_stopped_out v = true -> price_move v < 0.
Proof.
  intros Hs Hc Ho Hpos v Hstop.
  assert (Hmove : price_move v
                  == - (Open next_row * stop_loss_pct config) - cost).
  { subst v. destruct (Z.eq_dec signal 1) as [->|Hne].
    - destruct (simulate_trade_long config cost capital next_row)
        as (Hsp & _ & Hex & Hpm).
      cbv zeta in *. rewrite Hpm, Hex, Hstop, Hsp. ring.
    - destruct (simulate_trade_short config cost capital signal next_row Hne)
        as (Hsp & _ & Hex & Hpm).
      cbv zeta in *. rewrite Hpm, Hex, Hstop, Hsp. ring. }
  rewrite Hmove.
  assert (Hprod : 0 <= Open next_row * stop_loss_pct config)
    by (apply Qmult_le_0_compat; [apply Qlt_le_weak|]; assumption).
  destruct Hpos as [Hsl|Hcost]; [|lra].
  assert (0 < Open next_row * stop_loss_pct config)
    by (apply Qmult_lt_0_compat; assumption).
  lra.
Qed.

(** A stopped-out trade entered with a positive capital at a positive price
    loses money. *)
Lemma stopped_trade_loses config cost capital signal next_row :
  0 < position_size_pct config -> 0 < leverage config ->
  0 <= stop_loss_pct config -> 0 <= cost ->
  0 < capital -> 0 < Open next_row ->
  0 < stop_loss_pct config \/ 0 < cost ->
  let v := simulate_trade config cost capital signal next_row in
  v_stopped_out v = true -> v_pnl_usd v < 0.
Proof.
  intros Hp Hl Hs Hc Hcap Ho Hpos v Hstop.
  pose proof (position_size_positive config cost capital signal next_row
                Hp Hl Hcap Ho) as Hsize.
  pose proof (stopped_price_move_negative config cost capital signal next_row
                Hs Hc Ho Hpos Hstop) as Hmove.
  fold v in Hsize, Hmove.
  destruct (simulate_trade_pnl config cost capital signal next_row)
    as (_ & _ & Hpnl).
  fold v in Hpnl. rewrite Hpnl.
  assert (H : 0 < v_position_size v * - price_move v)
    by (apply Qmult_lt_0_compat; [exact Hsize | lra]).
  lra.
Qed.

Lemma transaction_cost_nonneg config :
  0 <= transaction_cost_pips config -> 0 <= transaction_cost_of config.
Proof.
  intros H. unfold transaction_cost_of.
  apply Qmult_le_0_compat; [exact H|]. unfold pip. lra.
Qed.

Lemma nth_last {A} (s : list A) (d : A) : nth (length s - 1) s d = last s d.
Proof.
  induction s as [|x [|y s] IH]; try reflexivity.
  change (nth (length (y :: s)) (x :: y :: s) d = last (y :: s) d).
  rewrite <- IH. cbn [length].
  replace (S (length s) - 1)%nat with (length s) by lia. reflexivity.
Qed.

Lemma map_PnL_USD (ts : list Trade) :
  map PnL_USD (map trade_row ts) = map pnl_usd ts.
Proof. rewrite map_map. reflexivity. Qed.

(** ** Entries of the returned ledger *)

(** Entry [i] of the ledger and of the curve of a completed run, in terms of
    the bar pair [(i, i + 1)] and of the capital before the trade. *)
Lemma run_backtest_entry sqrt pow df config r i :
  run_backtest sqrt pow df config = Ok r ->
  (i < length df - 1)%nat ->
  exists row next_row,
    nth_error df i = Some row /\
    nth_error df (S i) = Some next_row /\
    let v := simulate_trade (r_config r) (transaction_cost_of (r_config r))
               (capital_before (r_config r) (r_equity r) i)
               (ML_Signal row) next_row in
    nth_error (r_trades r) i
      = Some (trade_row (recorded_trade row next_row v)) /\
    nth_error (r_equity r) i =
      Some {| point_date := Date next_row;
              Equity := capital_before (r_config r) (r_equity r) i
                        + v_pnl_usd v |}.
Proof.
  intros Hr Hi.
  destruct (run_backtest_inv sqrt pow df config r Hr)
    as (_ & st & _ & (_ & _ & _ & _ & Hentry) & Ht & He & Hc).
  destruct (Hentry i Hi) as (row & next_row & Hrow & Hnext & Htr & Heq).
  exists row, next_row. rewrite Ht, He, Hc.
  repeat split; trivial.
  apply map_nth_error. exact Htr.
Qed.

Lemma run_backtest_lengths sqrt pow df config r :
  run_backtest sqrt pow df config = Ok r ->
  (2 <= length df)%nat /\
  length (r_trades r) = (length df - 1)%nat /\
  length (r_equity r) = (length df - 1)%nat.
Proof.
  intros Hr.
  destruct (run_backtest_inv sqrt pow df config r Hr)
    as (Hlen & st & _ & (Hlt & Hle & _) & Ht & He & _).
  rewrite Ht, He, length_map. auto.
Qed.

(** C5: the trade of the bar pair [(T, T+1)] is entered at the open of
    [T+1].  On a signal equal to [+1] it is a Long trade, its stop-loss price
    is [entry * (1 - stop_loss_pct)] and it is stopped out exactly when
    [low(T+1) <= stop]; on any other signal it is a Short trade, its
    stop-loss price is [entry * (1 + stop_loss_pct)] and it is stopped out
    exactly when [high(T+1) >= stop].  The exit price is the stop price when
    stopped out and [close(T+1)] otherwise. *)
Theorem C5_stop_loss_and_exit sqrt pow df config r i row next_row :
  run_backtest sqrt pow df config = Ok r ->
  nth_error df i = Some row ->
  nth_error df (S i) = Some next_row ->
  exists t,
    nth_error (r_trades r) i = Some t /\
    Entry t = Open next_row /\
    (ML_Signal row = 1%Z ->
       Direction t = LONG /\
       Stop_Loss t = Entry t * (1 - stop_loss_pct (r_config r)) /\
       (Stopped_Out t = true <-> Low next_row <= Stop_Loss t)) /\
    (ML_Signal row <> 1%Z ->
       Direction t = SHORT /\
       Stop_Loss t = Entry t * (1 + stop_loss_pct (r_config r)) /\
       (Stopped_Out t = true <-> Stop_Loss t <= High next_row)) /\
    Exit t = (if Stopped_Out t then Stop_Loss t else Close next_row).
Proof.
  intros Hr Hrow Hnext.
  assert (Hi : (i < length df - 1)%nat).
  { assert (S i < length df)%nat by (apply nth_error_Some; congruence). lia. }
  destruct (run_backtest_entry sqrt pow df config r i Hr Hi)
    as (row' & next' & Hrow' & Hnext' & Htrade & _).
  rewrite Hrow in Hrow'. rewrite Hnext in Hnext'.
  injection Hrow' as <-. injection Hnext' as <-.
  eexists. split; [exact Htrade|].
  cbn [trade_row recorded_trade Entry Direction Stop_Loss Stopped_Out Exit
       date direction entry_price exit_price stop_loss_price stopped_out].
  split; [reflexivity|]. split; [|split].
  - intros Hs. rewrite Hs. split; [reflexivity|].
    match goal with |- context [simulate_trade ?c ?k ?cap 1 ?b] =>
      destruct (simulate_trade_long c k cap b) as (Hsp & Hso & _ & _)
    end.
    cbv zeta in Hsp, Hso. split; [exact Hsp|].
    rewrite Hso. apply Qle_bool_iff.
  - intros Hs. apply Z.eqb_neq in Hs as Hs'. rewrite Hs'.
    split; [reflexivity|].
    match goal with |- context [simulate_trade ?c ?k ?cap ?s ?b] =>
      destruct (simulate_trade_short c k cap s b Hs) as (Hsp & Hso & _ & _)
    end.
    cbv zeta in Hsp, Hso. split; [exact Hsp|].
    rewrite Hso. apply Qle_bool_iff.
  - unfold simulate_trade. destruct (ML_Signal row =? 1)%Z; reflexivity.
Qed.

Lemma C5_witness :
  exists r t,
    run_backtest sqrt_rational pow_rational sample_bars None = Ok r /\
    nth_error (r_trades r) 0 = Some t /\
    Direction t = LONG /\
    Stop_Loss t = Entry t * (1 - stop_loss_pct (r_config r)) /\
    (Stopped_Out t = true <-> 1.0930 <= Stop_Loss t) /\
    Exit t = (if Stopped_Out t then Stop_Loss t else 1.1010).
Proof.
  eexists.
  assert (Hr : run_backtest sqrt_rational pow_rational sample_bars None
               = Ok ?[r]) by (vm_compute; reflexivity).
  destruct (C5_stop_loss_and_exit sqrt_rational pow_rational sample_bars None
              _ 0%nat _ _ Hr eq_refl eq_refl)
    as (t & Ht & _ & Hlong & _ & Hexit).
  destruct (Hlong eq_refl) as (Hd & Hs & Hso).
  exists t. repeat split; trivial; apply Hso.
Defined.

Lemma last_cons_default {A} (s : list A) :
  forall x d, last (x :: s) d = last s x.
Proof.
  induction s as [|y s IH]; intros x d; [reflexivity|].
  change (last (y :: s) d = last (y :: s) x). rewrite !IH. reflexivity.
Qed.

(** The last value of a series built by successive additions is the fold
    of the additions. *)
Lemma last_of_steps (pnls : list Q) :
  forall (eqs : list Q) (c0 : Q),
    length eqs = length pnls ->
    (forall i e x,
       nth_error eqs i = Some e -> nth_error pnls i = Some x ->
       e = match i with O => c0 | S j => nth j eqs 0 end + x) ->
    last eqs c0 = fold_left Qplus pnls c0.
Proof.
  induction pnls as [|x pnls IH]; intros [|e eqs] c0 Hlen Hstep;
    try discriminate Hlen; [reflexivity|].
  cbn [fold_left]. rewrite last_cons_default.
  rewrite <- (Hstep 0%nat e x eq_refl eq_refl).
  apply IH; [simpl in Hlen; lia|].
  intros i e' x' He' Hx'. rewrite (Hstep (S i) e' x' He' Hx').
  destruct i; reflexivity.
Qed.

Lemma Ok_inj {A} (a b : A) : Ok a = Ok b -> a = b.
Proof. intros H. injection H as ->. reflexivity. Qed.

Lemma for_range_invariant {S} (P : S -> Prop)
    (body : S -> nat -> result S) (range : list nat) :
  (forall st i st', P st -> body st i = Ok st' -> P st') ->
  forall st st', P st -> for_range body range st = Ok st' -> P st'.
Proof.
  intros Hbody. induction range as [|i range IH]; intros st st' HP H;
    simpl in H.
  - injection H as <-. exact HP.
  - destruct (body st i) as [st1|e] eqn:Hb; [|discriminate].
    cbn [bind] in H. apply (IH st1 st'); [|exact H].
    apply (Hbody st i st1 HP Hb).
Qed.

(** The binary64 loop accumulates as the amended C7 says: the running
    capital is the initial capital with the pnl of the ledger added one
    after the other, and it is the last point of the curve. *)
Lemma run_loop64_accumulates (df : list Bar64) (config : BacktestConfig64)
    (st : loop_state64) :
  run_loop64 df config = Ok st ->
  capital64 st
    = fold_left PrimFloat.add (map pnl_usd64 (trades64 st))
                (initial_capital64 config) /\
  last (map Equity64 (equity_curve64 st)) (initial_capital64 config)
    = capital64 st.
Proof.
  unfold run_loop64.
  apply (for_range_invariant
           (fun st =>
              capital64 st
                = fold_left PrimFloat.add (map pnl_usd64 (trades64 st))
                            (initial_capital64 config) /\
              last (map Equity64 (equity_curve64 st))
                   (initial_capital64 config) = capital64 st)).
  - intros st0 i st' (Hcap & Hlast) Hbody. unfold loop_body64 in Hbody.
    destruct (iloc df i) as [row|e]; [|discriminate].
    destruct (iloc df (i + 1)) as [next_row|e]; [|discriminate].
    cbn [bind] in Hbody.
    destruct (ML_Signal64 row =? 1)%Z; cbv zeta beta iota in Hbody;
      apply Ok_inj in Hbody; subst st';
      cbn [trades64 capital64 equity_curve64];
      rewrite !map_app; cbn [map]; rewrite fold_left_app, last_last;
      cbn [fold_left pnl_usd64 Equity64]; rewrite <- Hcap;
      split; reflexivity.
  - split; reflexivity.
Qed.

(** C7, as stated, fails in the arithmetic of the program.  On three
    ordinary bars under the default config the two trades earn
    -50.909090909091454 and 8.200016574126783; the final equity
    99957.29092566505 is the initial capital with the two pnl added one
    after the other, while the initial capital plus their sum is
    99957.29092566503. *)
Lemma C7_counterexample :
  exists st,
    run_loop64 rounding_bars default_config64 = Ok st /\
    map pnl_usd64 (trades64 st)
      = [-50.909090909091454; 8.200016574126783]%float /\
    map Equity64 (equity_curve64 st)
      = [99949.09090909091; 99957.29092566505]%float /\
    (initial_capital64 default_config64
     + fsum (map pnl_usd64 (trades64 st)))%float
      = 99957.29092566503%float /\
    PrimFloat.eqb
      (last (map Equity64 (equity_curve64 st)) 0%float)
      (initial_capital64 default_config64
       + fsum (map pnl_usd64 (trades64 st)))%float = false /\
    last (map Equity64 (equity_curve64 st)) 0%float
      = fold_left PrimFloat.add (map pnl_usd64 (trades64 st))
                  (initial_capital64 default_config64).
Proof.
  eexists. split; [vm_compute; reflexivity|].
  repeat split; vm_compute; reflexivity.
Qed.

(** C7, amended: in every completed run each equity point is the previous
    one (the initial capital for the first) plus the pnl of its trade, and
    the final equity is the initial capital with the pnl of the trades added
    one after the other in ledger order.  Both are the very additions of the
    loop. *)
Theorem C7_equity_accumulates sqrt pow df config r :
  run_backtest sqrt pow df config = Ok r ->
  (forall i p,
     nth_error (r_equity r) i = Some p ->
     exists t,
       nth_error (r_trades r) i = Some t /\
       Equity p = capital_before (r_config r) (r_equity r) i + PnL_USD t) /\
  last (map Equity (r_equity r)) 0
    = fold_left Qplus (map PnL_USD (r_trades r))
                (initial_capital (r_config r)).
Proof.
  intros Hr.
  destruct (run_backtest_lengths sqrt pow df config r Hr)
    as (Hlen & Hlt & Hle).
  assert (Hstep : forall i p,
    nth_error (r_equity r) i = Some p ->
    exists t,
      nth_error (r_trades r) i = Some t /\
      Equity p = capital_before (r_config r) (r_equity r) i + PnL_USD t).
  { intros i p Hp.
    assert (Hi : (i < length df - 1)%nat).
    { rewrite <- Hle. apply nth_error_Some. congruence. }
    destruct (run_backtest_entry sqrt pow df config r i Hr Hi)
      as (row & next_row & _ & _ & Htrade & Hpoint).
    cbv zeta in Htrade, Hpoint. rewrite Hp in Hpoint. injection Hpoint as ->.
    eexists. split; [exact Htrade|]. reflexivity. }
  split; [exact Hstep|].
  assert (Hne : map Equity (r_equity r) <> []).
  { destruct (r_equity r); [simpl in Hle; lia | discriminate]. }
  transitivity (last (map Equity (r_equity r)) (initial_capital (r_config r))).
  { destruct (map Equity (r_equity r)) as [|e eqs]; [congruence|].
    rewrite !last_cons_default. reflexivity. }
  apply last_of_steps; [rewrite !length_map; lia|].
  intros i e x He Hx.
  rewrite nth_error_map in He, Hx.
  destruct (nth_error (r_equity r) i) as [p|] eqn:Hp; [|discriminate].
  destruct (nth_error (r_trades r) i) as [t|] eqn:Ht; [|discriminate].
  injection He as <-. injection Hx as <-.
  destruct (Hstep i p Hp) as (t' & Ht' & Heq).
  rewrite Ht in Ht'. injection Ht' as <-. exact Heq.
Qed.

Lemma C7_witness :
  exists r,
    run_backtest sqrt_rational pow_rational sample_bars None = Ok r /\
    last (map Equity (r_equity r)) 0
      = fold_left Qplus (map PnL_USD (r_trades r))
                  (initial_capital (r_config r)).
Proof.
  eexists.
  assert (Hr : run_backtest sqrt_rational pow_rational sample_bars None
               = Ok ?[r]) by (vm_compute; reflexivity).
  split; [exact Hr|].
  apply (C7_equity_accumulates sqrt_rational pow_rational sample_bars None
           _ Hr).
Defined.

(** C10, as stated, fails: the claim names no condition on the leverage,
    and the engine accepts a negative one.  With a leverage of -1 the long
    trade of the concrete scenario is entered with a positive capital at a
    positive price under a positive stop-loss fraction, is stopped out, and
    earns 560/11. *)
Lemma C10_counterexample :
  exists r t,
    run_backtest sqrt_rational pow_rational scenario_bars
      (Some negative_leverage_config) = Ok r /\
    nth_error (r_trades r) 0 = Some t /\
    0 < capital_before (r_config r) (r_equity r) 0 /\
    0 < Entry t /\
    0 < stop_loss_pct (r_config r) /\
    0 < transaction_cost_of (r_config r) /\
    Stopped_Out t = true /\
    PnL_USD t == 560 / 11 /\
    ~ PnL_USD t < 0.
Proof.
  eexists. eexists.
  split; [vm_compute; reflexivity|]. split; [reflexivity|].
  repeat split; try (vm_compute; reflexivity).
  vm_compute. discriminate.
Qed.

(** C10, amended: under a config with a positive position fraction, a
    positive leverage, a non-negative stop-loss fraction and a non-negative
    transaction cost, a trade entered with a positive running capital at a
    positive entry price, with a positive stop-loss fraction or a positive
    transaction cost, has a strictly negative pnl whenever it is stopped
    out. *)
Theorem C10_stopped_out_trade_loses sqrt pow df config r i t :
  run_backtest sqrt pow df config = Ok r ->
  0 < position_size_pct (r_config r) ->
  0 < leverage (r_config r) ->
  0 <= stop_loss_pct (r_config r) ->
  0 <= transaction_cost_pips (r_config r) ->
  nth_error (r_trades r) i = Some t ->
  0 < capital_before (r_config r) (r_equity r) i ->
  0 < Entry t ->
  0 < stop_loss_pct (r_config r) \/ 0 < transaction_cost_of (r_config r) ->
  Stopped_Out t = true ->
  PnL_USD t < 0.
Proof.
  intros Hr Hpct Hlev Hsl Hpips Ht Hcap Hentry Hpos Hstop.
  destruct (run_backtest_lengths sqrt pow df config r Hr) as (_ & Hlt & _).
  assert (Hi : (i < length df - 1)%nat).
  { rewrite <- Hlt. apply nth_error_Some. congruence. }
  destruct (run_backtest_entry sqrt pow df config r i Hr Hi)
    as (row & next_row & _ & _ & Htrade & _).
  cbv zeta in Htrade. rewrite Ht in Htrade. injection Htrade as ->.
  cbn [trade_row recorded_trade Entry PnL_USD Stopped_Out
       entry_price pnl_usd stopped_out] in *.
  apply stopped_trade_loses; trivial.
  apply transaction_cost_nonneg. exact Hpips.
Qed.

Lemma C10_witness :
  exists r t,
    run_backtest sqrt_rational pow_rational sample_bars None = Ok r /\
    nth_error (r_trades r) 0 = Some t /\
    Stopped_Out t = true /\
    PnL_USD t < 0.
Proof.
  eexists. eexists.
  split; [vm_compute; reflexivity|].
  split; [reflexivity|]. split; [reflexivity|].
  eapply (C10_stopped_out_trade_loses sqrt_rational pow_rational sample_bars
            None) with (i := 0%nat).
  - vm_compute; reflexivity.
  - reflexivity.
  - reflexivity.
  - vm_compute; discriminate.
  - vm_compute; discriminate.
  - reflexivity.
  - reflexivity.
  - reflexivity.
  - left. reflexivity.
  - reflexivity.
Defined.

(** ** Independence of [take_profit_pct] *)

Lemma for_range_ext {S} (f g : S -> nat -> result S) (range : list nat) :
  (forall st i, f st i = g st i) ->
  forall st, for_range f range st = for_range g range st.
Proof.
  intros Hfg. induction range as [|i range IH]; intros st; simpl.
  - reflexivity.
  - rewrite Hfg. destruct (g st i); simpl; [apply IH | reflexivity].
Qed.

Section TakeProfit.

Variables c1 c2 : BacktestConfig.
Hypothesis Hagree : agree_except_take_profit c1 c2.

Lemma simulate_trade_agree cost capital signal next_row :
  simulate_trade c1 cost capital signal next_row =
  simulate_trade c2 cost capital signal next_row.
Proof.
  destruct Hagree as (_ & Hp & Hs & _ & Hl).
  unfold simulate_trade. rewrite Hp, Hs, Hl. reflexivity.
Qed.

Lemma loop_body_agree cost df st i :
  loop_body c1 cost df st i = loop_body c2 cost df st i.
Proof.
  unfold loop_body.
  destruct (iloc df i) as [row|e]; [|reflexivity].
  destruct (iloc df (i + 1)) as [next_row|e]; [|reflexivity].
  cbn [bind]. rewrite simulate_trade_agree. reflexivity.
Qed.

Lemma run_loop_agree df : run_loop df c1 = run_loop df c2.
Proof.
  unfold run_loop, initial_state.
  destruct Hagree as (Hc & _ & _ & Ht & _). rewrite Hc, Ht.
  apply for_range_ext. intros st i. apply loop_body_agree.
Qed.

Lemma compute_metrics_agree sqrt pow trades_df equity_df :
  compute_metrics sqrt pow trades_df equity_df c1 =
  compute_metrics sqrt pow trades_df equity_df c2.
Proof.
  destruct Hagree as (Hc & _). unfold compute_metrics. rewrite Hc.
  reflexivity.
Qed.

End TakeProfit.

(** C9: two runs over the same bars under configs that differ at most in
    [take_profit_pct] end alike, with the same trade ledger, the same equity
    curve and the same metrics. *)
Theorem C9_take_profit_noninterference sqrt pow df c1 c2 :
  agree_except_take_profit c1 c2 ->
  outputs (run_backtest sqrt pow df (Some c1)) =
  outputs (run_backtest sqrt pow df (Some c2)).
Proof.
  intros Hagree. unfold run_backtest.
  rewrite (run_loop_agree c1 c2 Hagree df).
  destruct (run_loop df c2) as [st|e]; [|reflexivity]. cbn [bind].
  destruct (set_index_Date (equity_curve st)) as [equity_df|e];
    [|reflexivity].
  cbn [bind]. rewrite (compute_metrics_agree c1 c2 Hagree).
  destruct (compute_metrics sqrt pow (map trade_row (trades st)) equity_df c2);
    reflexivity.
Qed.

Lemma C9_witness :
  agree_except_take_profit default_config
    {| initial_capital := 100000; position_size_pct := 0.10;
       stop_loss_pct := 0.005; take_profit_pct := Some 0.002;
       transaction_cost_pips := 1.0; leverage := 1.0 |} /\
  outputs (run_backtest sqrt_rational pow_rational sample_bars
             (Some default_config)) =
  outputs (run_backtest sqrt_rational pow_rational sample_bars
             (Some {| initial_capital := 100000; position_size_pct := 0.10;
                      stop_loss_pct := 0.005; take_profit_pct := Some 0.002;
                      transaction_cost_pips := 1.0; leverage := 1.0 |})).
Proof.
  split; [repeat split|].
  apply C9_take_profit_noninterference. repeat split.
Defined.

(** ** Concrete runs *)

(** Closed comparisons of rationals, by evaluation. *)
Ltac q_decide :=
  match goal with
  | |- _ == _ => vm_compute; reflexivity
  | |- _ < _ => vm_compute; reflexivity
  | |- _ <= _ => vm_compute; discriminate
  | |- _ => reflexivity
  end.

(** C6: with the scenario config, a signal [+1] on bar [T] and the bar
    [T+1] (open 1.1000, high 1.1020, low 1.0930, close 1.1010), the run
    returns one trade and one equity point with position value 10000,
    position size 100000/11 (9090.909 to three decimals), stop price 1.0945,
    stopped out, exit price 1.0945, price move -0.0056, pnl -560/11 (-50.91
    to two decimals) and equity 100000 - 560/11 (99949.09 to two
    decimals). *)
Theorem C6_concrete_scenario sqrt pow take_profit
    (date_T : Timestamp) (open_T high_T low_T close_T : Q)
    (date_T1 : Timestamp) (signal_T1 : Z) :
  let config := scenario_config take_profit in
  let bar_T := {| Date := date_T; Open := open_T; High := high_T;
                  Low := low_T; Close := close_T; ML_Signal := 1 |} in
  let bar_T1 := {| Date := date_T1; Open := 1.1000; High := 1.1020;
                   Low := 1.0930; Close := 1.1010;
                   ML_Signal := signal_T1 |} in
  let v := simulate_trade config (transaction_cost_of config)
             (initial_capital config) (ML_Signal bar_T) bar_T1 in
  exists r t p,
    run_backtest sqrt pow [bar_T; bar_T1] (Some config) = Ok r /\
    r_trades r = [t] /\ r_equity r = [p] /\
    Direction t = LONG /\
    position_value v == 10000 /\
    Position_EUR t = v_position_size v /\
    Position_EUR t == 100000 / 11 /\
    (9090.9085 < Position_EUR t /\ Position_EUR t < 9090.9095) /\
    Stop_Loss t == 1.0945 /\
    Stopped_Out t = true /\
    Exit t == 1.0945 /\
    price_move v == -0.0056 /\
    PnL_USD t = v_pnl_usd v /\
    PnL_USD t == - (560 / 11) /\
    (-50.915 < PnL_USD t /\ PnL_USD t < -50.905) /\
    Equity p == 100000 - 560 / 11 /\
    (99949.085 < Equity p /\ Equity p < 99949.095).
Proof.
  intros config bar_T bar_T1 v.
  eexists. eexists. eexists.
  split; [vm_compute; reflexivity|].
  split; [reflexivity|]. split; [reflexivity|].
  repeat split; q_decide.
Qed.

(** What line 158 computes on every completed run: the base of the power is
    the final equity over the first equity point, which is the initial
    capital plus the pnl of the first trade. *)
Lemma annual_return_base sqrt pow df config r :
  run_backtest sqrt pow df config = Ok r ->
  exists t first,
    nth_error (r_trades r) 0 = Some t /\
    nth_error (map Equity (r_equity r)) 0 = Some first /\
    first = initial_capital (r_config r) + PnL_USD t /\
    Annualized_Return (r_metrics r) =
      xsub (pow (xdiv (Fin (last (map Equity (r_equity r)) 0)) (Fin first))
                (xdiv (Fin 252) (of_nat (length (r_equity r)))))
           (Fin 1).
Proof.
  intros Hr.
  destruct (run_backtest_lengths sqrt pow df config r Hr) as (Hlen & _ & _).
  destruct (run_backtest_entry sqrt pow df config r 0 Hr ltac:(lia))
    as (row & next_row & _ & _ & Htrade & Hpoint).
  cbv zeta in Htrade, Hpoint. cbn [capital_before] in Htrade, Hpoint.
  eexists. eexists. split; [exact Htrade|].
  split; [apply map_nth_error; exact Hpoint|].
  split; [reflexivity|].
  revert Hr. unfold run_backtest.
  destruct (run_loop df _) as [st|e]; [|discriminate]. cbn [bind].
  destruct (set_index_Date (equity_curve st)) as [equity_df|e] eqn:Hset;
    [|discriminate].
  cbn [bind]. unfold compute_metrics.
  destruct (annual_return_of pow (map Equity equity_df)) as [a|e] eqn:Ha;
    [|discriminate].
  cbn [bind].
  destruct (iloc_last (map Equity equity_df)) as [final|e] eqn:Hfinal;
    [|discriminate].
  cbn [bind]. intros Hr. injection Hr as <-.
  cbn [r_metrics r_equity Annualized_Return] in *.
  unfold annual_return_of in Ha. rewrite Hfinal in Ha. cbn [bind] in Ha.
  destruct equity_df as [|p0 rest]; [discriminate|].
  cbn [map iloc nth_error bind] in Ha. injection Ha as <-.
  cbn [iloc_last map] in Hfinal. injection Hfinal as <-.
  cbn [map nth_error] in Hpoint. injection Hpoint as ->.
  rewrite length_map. reflexivity.
Qed.

(** C1, at the failing input: on the run of the concrete scenario (one
    trade, which loses about 50.91) the reported Annualized Return is 0,
    because its base is the first equity point over itself; the formula of
    the specification, whose base is the final equity over the initial
    capital, gives a loss of more than 12%. *)
Theorem C1_annualized_return_base_is_first_equity_point :
  exists r claimed,
    run_backtest sqrt_rational pow_rational scenario_bars None = Ok r /\
    length (r_trades r) = 1%nat /\
    xeq (Annualized_Return (r_metrics r)) (Fin 0) /\
    annual_return_spec pow_rational (r_config r) (map Equity (r_equity r))
      = Ok claimed /\
    xltb claimed (Fin (-0.12)) = true /\
    ~ xeq (Annualized_Return (r_metrics r)) claimed.
Proof.
  eexists. eexists.
  split; [vm_compute; reflexivity|].
  split; [reflexivity|].
  split; [vm_compute; reflexivity|].
  split; [vm_compute; reflexivity|].
  split; [vm_compute; reflexivity|].
  vm_compute. discriminate.
Qed.

(** The guards that [compute_metrics] does have, on every input for which
    it returns a report: each guarded field takes its substitute value when
    its denominator is empty.  The stop-out rate has none: with no trade it
    is the quotient 0/0. *)
Lemma compute_metrics_guards sqrt pow trades_df equity_df config m :
  compute_metrics sqrt pow trades_df equity_df config = Ok m ->
  let pnl := map PnL_USD trades_df in
  (trades_df = [] -> Win_Rate m = Fin 0 /\ Stop_out_Rate m = NaN) /\
  (filter (fun p => Qltb 0 p) pnl = [] -> Avg_Win m = Fin 0) /\
  (filter (fun p => Qle_bool p 0) pnl = [] ->
     Avg_Loss m = Fin 0 /\ Profit_Factor m = PInf) /\
  (xltb (Fin 0)
        (series_std sqrt (dropna (pct_change (map Equity equity_df))))
     = false ->
     Sharpe_Ratio m = Fin 0) /\
  (xeqb (Max_Drawdown m) (Fin 0) = true -> Calmar_Ratio m = PInf).
Proof.
  unfold compute_metrics.
  destruct (annual_return_of pow (map Equity equity_df)) as [a|e];
    [|discriminate].
  cbn [bind].
  destruct (iloc_last (map Equity equity_df)) as [final|e]; [|discriminate].
  cbn [bind]. intros Hm. injection Hm as <-. cbv zeta.
  cbn [Win_Rate Stop_out_Rate Avg_Win Avg_Loss Profit_Factor Sharpe_Ratio
       Calmar_Ratio Max_Drawdown].
  split; [|split; [|split; [|split]]].
  - intros ->. split; reflexivity.
  - intros ->. reflexivity.
  - intros ->. split; reflexivity.
  - unfold xltb. intros ->. reflexivity.
  - intros ->. reflexivity.
Qed.

(** The guard of the profit factor tests the number of losing trades, not
    the sum it divides by: one trade with a pnl of exactly 0 counts as a
    loser, and the profit factor is the quotient 0/0. *)
Lemma profit_factor_zero_loss_sum sqrt pow config t p :
  PnL_USD t = 0 ->
  exists m,
    compute_metrics sqrt pow [t] [p] config = Ok m /\
    Profit_Factor m = NaN.
Proof.
  intros Hpnl. eexists. split; [reflexivity|].
  cbn [Profit_Factor map]. rewrite Hpnl. reflexivity.
Qed.

(** C4, at the failing input: on an empty ledger with an empty equity curve
    no report is produced at all ([iloc[-1]] raises); on an empty ledger
    with one equity point the guarded fields take their substitute values
    while the stop-out rate, which has no guard, is the undefined quotient
    0/0. *)
Theorem C4_stop_out_rate_is_not_guarded sqrt pow config p :
  compute_metrics sqrt pow [] [] config = Raise IndexError /\
  exists m,
    compute_metrics sqrt pow [] [p] config = Ok m /\
    Total_Trades m = 0%nat /\
    Win_Rate m = Fin 0 /\
    Avg_Win m = Fin 0 /\
    Avg_Loss m = Fin 0 /\
    Profit_Factor m = PInf /\
    Sharpe_Ratio m = Fin 0 /\
    Stop_out_Rate m = NaN.
Proof.
  split; [reflexivity|].
  eexists. split; [reflexivity|].
  repeat split.
Qed.

(** * Further properties of the execution loop *)

(** ** No look-ahead *)

Lemma for_range_ext_in {S} (f g : S -> nat -> result S) (range : list nat) :
  (forall i, In i range -> forall st, f st i = g st i) ->
  forall st, for_range f range st = for_range g range st.
Proof.
  induction range as [|i range IH]; intros Hfg st; simpl; [reflexivity|].
  rewrite (Hfg i (or_introl eq_refl)).
  destruct (g st i); simpl; [|reflexivity].
  apply IH. intros j Hj. apply Hfg. right. exact Hj.
Qed.

(** Below the last bar of [df], an iteration over [df ++ extra] is the one
    over [df]. *)
Lemma loop_body_app config cost df extra st i :
  (S i < length df)%nat ->
  loop_body config cost (df ++ extra) st i = loop_body config cost df st i.
Proof.
  intros Hi. unfold loop_body, iloc.
  rewrite !nth_error_app1 by lia. reflexivity.
Qed.

(** The loop only appends to the ledger and to the curve. *)
Lemma for_range_appends config cost df range :
  forall st st',
    for_range (loop_body config cost df) range st = Ok st' ->
    exists ts ps,
      trades st' = trades st ++ ts /\
      equity_curve st' = equity_curve st ++ ps.
Proof.
  induction range as [|i range IH]; intros st st' H; simpl in H.
  - injection H as <-. exists [], []. rewrite !app_nil_r. auto.
  - destruct (loop_body config cost df st i) as [st1|e] eqn:Hbody;
      [|discriminate].
    cbn [bind] in H. destruct (IH st1 st' H) as (ts & ps & Ht & Hp).
    unfold loop_body in Hbody.
    destruct (iloc df i) as [row|e]; [|discriminate].
    destruct (iloc df (i + 1)) as [next_row|e]; [|discriminate].
    cbn [bind] in Hbody. injection Hbody as <-.
    cbn [trades equity_curve] in Ht, Hp.
    rewrite <- app_assoc in Ht, Hp. eauto.
Qed.

Lemma run_loop_app config df extra st :
  (1 <= length df)%nat ->
  run_loop df config = Ok st ->
  exists st' ts ps,
    run_loop (df ++ extra) config = Ok st' /\
    trades st' = trades st ++ ts /\
    equity_curve st' = equity_curve st ++ ps.
Proof.
  intros Hlen Hrun.
  destruct (run_loop_inv config (df ++ extra)) as (st' & Hrun' & _).
  exists st'.
  assert (Hrest :
    for_range (loop_body config (transaction_cost_of config) (df ++ extra))
      (seq (length df - 1) (length extra)) st = Ok st').
  { unfold run_loop in Hrun'. fold (transaction_cost_of config) in Hrun'.
    replace (length (df ++ extra) - 1)%nat
      with ((length df - 1) + length extra)%nat in Hrun'
      by (rewrite length_app; lia).
    rewrite seq_app, for_range_app in Hrun'.
    rewrite (for_range_ext_in _
               (loop_body config (transaction_cost_of config) df)) in Hrun'.
    - unfold run_loop in Hrun. fold (transaction_cost_of config) in Hrun.
      rewrite Hrun in Hrun'. exact Hrun'.
    - intros i Hi st0. apply in_seq in Hi.
      apply loop_body_app. lia. }
  destruct (for_range_appends _ _ _ _ _ _ Hrest) as (ts & ps & Ht & Hp).
  exists ts, ps. auto.
Qed.

(** No look-ahead: the trades and the equity points of a run are not changed
    by the bars that follow.  When a run over [df] completes, the run over
    [df] followed by any further bars completes too, and its ledger and its
    curve start with those of the run over [df]. *)
Theorem run_backtest_no_look_ahead sqrt pow df extra config r :
  run_backtest sqrt pow df config = Ok r ->
  exists r',
    run_backtest sqrt pow (df ++ extra) config = Ok r' /\
    firstn (length (r_trades r)) (r_trades r') = r_trades r /\
    firstn (length (r_equity r)) (r_equity r') = r_equity r.
Proof.
  intros Hr.
  destruct (run_backtest_inv sqrt pow df config r Hr)
    as (Hlen & st & Hrun & _ & Ht & He & _).
  destruct (run_loop_app _ df extra st ltac:(lia) Hrun)
    as (st' & ts & ps & Hrun' & Hts & Hps).
  destruct (run_backtest_ok sqrt pow (df ++ extra) config)
    as (st'' & m & Hrun'' & _ & Hok); [rewrite length_app; lia|].
  rewrite Hrun' in Hrun''. injection Hrun'' as <-.
  eexists. split; [exact Hok|]. cbn [r_trades r_equity].
  rewrite Ht, He, Hts, Hps, map_app, length_map.
  rewrite <- (length_map trade_row (trades st)) at 1.
  rewrite !firstn_app, !Nat.sub_diag, !firstn_all. cbn [firstn].
  rewrite !app_nil_r. auto.
Qed.

Lemma run_backtest_no_look_ahead_witness :
  exists r r',
    run_backtest sqrt_rational pow_rational scenario_bars None = Ok r /\
    run_backtest sqrt_rational pow_rational sample_bars None = Ok r' /\
    firstn (length (r_trades r)) (r_trades r') = r_trades r.
Proof.
  eexists.
  assert (Hr : run_backtest sqrt_rational pow_rational scenario_bars None
               = Ok ?[r]) by (vm_compute; reflexivity).
  destruct (run_backtest_no_look_ahead sqrt_rational pow_rational
              scenario_bars (skipn 2 sample_bars) None _ Hr)
    as (r' & Hr' & Ht & _).
  change (scenario_bars ++ skipn 2 sample_bars) with sample_bars in Hr'.
  exists r'. split; [exact Hr|]. split; [exact Hr'|exact Ht].
Defined.

(** ** The stop-loss as a bound on the exit *)

(** The price move of a trade is never below the one of a stop-out, as soon
    as the close of the bar lies between its low and its high. *)
Lemma price_move_lower_bound config cost capital signal next_row :
  close_in_range next_row ->
  let v := simulate_trade config cost capital signal next_row in
  - (Open next_row * stop_loss_pct config) - cost <= price_move v /\
  (v_stopped_out v = true ->
   price_move v == - (Open next_row * stop_loss_pct config) - cost).
Proof.
  intros (Hlow & Hhigh) v. subst v.
  destruct (Z.eq_dec signal 1) as [->|Hne].
  - destruct (simulate_trade_long config cost capital next_row)
      as (Hsp & Hso & Hex & Hpm).
    cbv zeta in *. rewrite Hpm, Hex.
    destruct (v_stopped_out _) eqn:Hstop.
    + rewrite Hsp. split; [|intros _]; ring_simplify; lra.
    + split; [|discriminate].
      symmetry in Hso.
      assert (Hlt : stop_price (simulate_trade config cost capital 1 next_row)
                    < Low next_row).
      { apply Qnot_le_lt. intros Hle. apply Qle_bool_iff in Hle. congruence. }
      rewrite Hsp in Hlt. lra.
  - destruct (simulate_trade_short config cost capital signal next_row Hne)
      as (Hsp & Hso & Hex & Hpm).
    cbv zeta in *. rewrite Hpm, Hex.
    destruct (v_stopped_out _) eqn:Hstop.
    + rewrite Hsp. split; [|intros _]; ring_simplify; lra.
    + split; [|discriminate].
      symmetry in Hso.
      assert (Hlt : High next_row
                    < stop_price (simulate_trade config cost capital signal
                                    next_row)).
      { apply Qnot_le_lt. intros Hle. apply Qle_bool_iff in Hle. congruence. }
      rewrite Hsp in Hlt. lra.
Qed.

(** A trade never does worse than its own stop-out.  On a bar whose close
    lies between its low and its high, the exit price is never beyond the
    stop price (at or above it for a Long trade, at or below it for a Short
    one); hence, for a non-negative position size, the pnl is at least the
    pnl at the stop, [position_size * (stop - entry - cost)] for a Long
    trade and [position_size * (entry - stop - cost)] for a Short one, and
    it is that very value when the trade is stopped out, whatever the high,
    the low and the close. *)
Theorem trade_never_worse_than_stop_out sqrt pow df config r i next_row t :
  run_backtest sqrt pow df config = Ok r ->
  nth_error df (S i) = Some next_row ->
  close_in_range next_row ->
  nth_error (r_trades r) i = Some t ->
  0 <= Position_EUR t ->
  let cost := transaction_cost_of (r_config r) in
  let at_stop :=
    match Direction t with
    | LONG => Position_EUR t * (Stop_Loss t - Entry t - cost)
    | SHORT => Position_EUR t * (Entry t - Stop_Loss t - cost)
    end in
  match Direction t with
  | LONG => Stop_Loss t <= Exit t
  | SHORT => Exit t <= Stop_Loss t
  end /\
  at_stop <= PnL_USD t /\
  (Stopped_Out t = true -> PnL_USD t = at_stop).
Proof.
  intros Hr Hnext (Hlow & Hhigh) Ht Hsize cost at_stop. subst cost at_stop.
  assert (Hi : (i < length df - 1)%nat).
  { assert (S i < length df)%nat by (apply nth_error_Some; congruence). lia. }
  destruct (run_backtest_entry sqrt pow df config r i Hr Hi)
    as (row & next' & _ & Hnext' & Htrade & _).
  rewrite Hnext in Hnext'. injection Hnext' as <-.
  cbv zeta in Htrade. rewrite Ht in Htrade. injection Htrade as ->.
  cbn [trade_row recorded_trade Entry Exit Stop_Loss PnL_USD Stopped_Out
       Position_EUR Direction entry_price exit_price stop_loss_price pnl_usd
       stopped_out position_size direction] in *.
  match goal with |- context [simulate_trade ?c ?k ?cap ?s ?b] =>
    destruct (simulate_trade_pnl c k cap s b) as (_ & _ & Hpnl);
    cbv zeta in Hpnl
  end.
  destruct (Z.eqb_spec (ML_Signal row) 1) as [Hs|Hs].
  - rewrite Hs in *.
    match goal with |- context [simulate_trade ?c ?k ?cap 1 ?b] =>
      destruct (simulate_trade_long c k cap b) as (_ & Hso & Hex & Hpm);
      cbv zeta in Hso, Hex, Hpm;
      set (v := simulate_trade c k cap 1 b) in *
    end.
    rewrite Hpnl, Hpm.
    assert (Hexit : stop_price v <= actual_exit v).
    { rewrite Hex. destruct (v_stopped_out v); [apply Qle_refl|].
      assert (stop_price v < Low next_row); [|lra].
      apply Qnot_le_lt. intros Hle. apply Qle_bool_iff in Hle. congruence. }
    split; [exact Hexit|]. split.
    + assert (H : 0 <= v_position_size v * (actual_exit v - stop_price v))
        by (apply Qmult_le_0_compat; [exact Hsize | lra]).
      lra.
    + intros Hstop. rewrite Hex, Hstop. reflexivity.
  - match goal with |- context [simulate_trade ?c ?k ?cap ?s ?b] =>
      destruct (simulate_trade_short c k cap s b Hs) as (_ & Hso & Hex & Hpm);
      cbv zeta in Hso, Hex, Hpm;
      set (v := simulate_trade c k cap s b) in *
    end.
    rewrite Hpnl, Hpm.
    assert (Hexit : actual_exit v <= stop_price v).
    { rewrite Hex. destruct (v_stopped_out v); [apply Qle_refl|].
      assert (High next_row < stop_price v); [|lra].
      apply Qnot_le_lt. intros Hle. apply Qle_bool_iff in Hle. congruence. }
    split; [exact Hexit|]. split.
    + assert (H : 0 <= v_position_size v * (stop_price v - actual_exit v))
        by (apply Qmult_le_0_compat; [exact Hsize | lra]).
      lra.
    + intros Hstop. rewrite Hex, Hstop. reflexivity.
Qed.

Lemma trade_never_worse_than_stop_out_witness :
  exists r t,
    run_backtest sqrt_rational pow_rational winning_bars None = Ok r /\
    nth_error (r_trades r) 0 = Some t /\
    Direction t = SHORT /\
    match Direction t with
    | LONG => Stop_Loss t <= Exit t
    | SHORT => Exit t <= Stop_Loss t
    end.
Proof.
  eexists. eexists.
  split; [vm_compute; reflexivity|]. split; [reflexivity|].
  split; [reflexivity|].
  eapply (trade_never_worse_than_stop_out sqrt_rational pow_rational
            winning_bars None) with (i := 0%nat).
  - vm_compute; reflexivity.
  - reflexivity.
  - split; vm_compute; discriminate.
  - reflexivity.
  - vm_compute; discriminate.
Defined.

(** Stop-loss ordering: with a positive entry price and a positive stop-loss
    fraction, the stop price of a Long trade is below its entry price and
    the one of a Short trade is above it. *)
Theorem stop_loss_ordering sqrt pow df config r i t :
  run_backtest sqrt pow df config = Ok r ->
  nth_error (r_trades r) i = Some t ->
  0 < Entry t ->
  0 < stop_loss_pct (r_config r) ->
  (Direction t = LONG -> Stop_Loss t < Entry t) /\
  (Direction t = SHORT -> Entry t < Stop_Loss t).
Proof.
  intros Hr Ht Hentry Hsl.
  destruct (run_backtest_lengths sqrt pow df config r Hr) as (_ & Hlt & _).
  assert (Hi : (i < length df - 1)%nat).
  { rewrite <- Hlt. apply nth_error_Some. congruence. }
  destruct (run_backtest_entry sqrt pow df config r i Hr Hi)
    as (row & next_row & Hrow & Hnext & Htrade & _).
  cbv zeta in Htrade. rewrite Ht in Htrade. injection Htrade as ->.
  cbn [trade_row recorded_trade Entry Direction Stop_Loss
       entry_price direction stop_loss_price] in *.
  assert (Hprod : 0 < Open next_row * stop_loss_pct (r_config r))
    by (apply Qmult_lt_0_compat; assumption).
  destruct (Z.eqb_spec (ML_Signal row) 1) as [Hs|Hs].
  - rewrite Hs.
    match goal with |- context [simulate_trade ?c ?k ?cap 1 ?b] =>
      destruct (simulate_trade_long c k cap b) as (Hsp & _)
    end.
    cbv zeta in Hsp. rewrite Hsp.
    split; [intros _; lra | discriminate].
  - match goal with |- context [simulate_trade ?c ?k ?cap ?s ?b] =>
      destruct (simulate_trade_short c k cap s b Hs) as (Hsp & _)
    end.
    cbv zeta in Hsp. rewrite Hsp.
    split; [discriminate | intros _; lra].
Qed.

Lemma stop_loss_ordering_witness :
  exists r t,
    run_backtest sqrt_rational pow_rational sample_bars None = Ok r /\
    nth_error (r_trades r) 1 = Some t /\
    Direction t = SHORT /\
    Entry t < Stop_Loss t.
Proof.
  eexists. eexists.
  split; [vm_compute; reflexivity|]. split; [reflexivity|].
  split; [reflexivity|].
  eapply (stop_loss_ordering sqrt_rational pow_rational sample_bars None)
    with (i := 1%nat).
  - vm_compute; reflexivity.
  - reflexivity.
  - reflexivity.
  - reflexivity.
  - reflexivity.
Defined.

(** ** The equity stays positive *)

Lemma nth_error_tl {A} (s : list A) (i : nat) :
  nth_error (tl s) i = nth_error s (S i).
Proof. destruct s; [destruct i|]; reflexivity. Qed.

(** One trade leaves the capital positive when the loss at the stop is
    smaller than the capital. *)
Lemma capital_stays_positive config capital signal next_row :
  0 < position_size_pct config -> 0 < leverage config ->
  0 < capital -> 0 < Open next_row ->
  close_in_range next_row ->
  stop_loss_below_capital config next_row ->
  0 < capital
      + v_pnl_usd (simulate_trade config (transaction_cost_of config)
                                  capital signal next_row).
Proof.
  intros Hp Hl Hc Ho Hrange Hbelow.
  set (cost := transaction_cost_of config) in *.
  pose proof (position_size_positive config cost capital signal next_row
                Hp Hl Hc Ho) as Hsize.
  destruct (price_move_lower_bound config cost capital signal next_row Hrange)
    as (Hmove & _).
  destruct (simulate_trade_pnl config cost capital signal next_row)
    as (Hvalue & Hps & Hpnl).
  set (v := simulate_trade config cost capital signal next_row) in *.
  cbv zeta in Hmove, Hvalue, Hps, Hpnl. rewrite Hpnl.
  set (worst := Open next_row * stop_loss_pct config + cost) in *.
  assert (Hge : - (v_position_size v * worst)
                <= v_position_size v * price_move v).
  { assert (H : 0 <= v_position_size v * (price_move v + worst))
      by (apply Qmult_le_0_compat; [lra | unfold worst; lra]).
    lra. }
  assert (Hshare : v_position_size v * worst
                   == capital
                      * (position_size_pct config * leverage config * worst
                         / Open next_row)).
  { rewrite Hps, Hvalue. field. lra. }
  assert (Hq : position_size_pct config * leverage config * worst
               / Open next_row < 1).
  { apply Qlt_shift_div_r; [exact Ho|].
    unfold stop_loss_below_capital in Hbelow.
    fold cost worst in Hbelow. lra. }
  assert (Hlt : capital
                * (position_size_pct config * leverage config * worst
                   / Open next_row) < capital * 1)
    by (apply Qmult_lt_l; assumption).
  lra.
Qed.

(** The equity stays positive: under a config of the documented domain,
    when every traded bar has a positive open, a close between its low and
    its high, and a stop loss below the capital, every point of the equity
    curve is positive. *)
Theorem equity_stays_positive sqrt pow df config r :
  run_backtest sqrt pow df config = Ok r ->
  config_domain (r_config r) ->
  Forall (fun b => 0 < Open b /\ close_in_range b /\
                   stop_loss_below_capital (r_config r) b) (tl df) ->
  Forall (fun p => 0 < Equity p) (r_equity r).
Proof.
  intros Hr (Hcap & (Hpct & _) & _ & _ & Hlev) Hbars.
  destruct (run_backtest_lengths sqrt pow df config r Hr) as (_ & _ & Hle).
  assert (Hall : forall i p, nth_error (r_equity r) i = Some p -> 0 < Equity p).
  { induction i as [i IH] using lt_wf_ind. intros p Hp.
    assert (Hi : (i < length df - 1)%nat).
    { rewrite <- Hle. apply nth_error_Some. congruence. }
    destruct (run_backtest_entry sqrt pow df config r i Hr Hi)
      as (row & next_row & _ & Hnext & _ & Hpoint).
    cbv zeta in Hpoint. rewrite Hp in Hpoint. injection Hpoint as ->.
    cbn [Equity].
    rewrite <- nth_error_tl in Hnext. apply nth_error_In in Hnext.
    rewrite Forall_forall in Hbars.
    destruct (Hbars next_row Hnext) as (Ho & Hrange & Hbelow).
    apply capital_stays_positive; trivial.
    destruct i as [|j]; cbn [capital_before]; [exact Hcap|].
    destruct (nth_error (r_equity r) j) as [pj|] eqn:Hpj.
    - rewrite (nth_error_nth _ _ 0 (map_nth_error Equity _ _ Hpj)).
      apply (IH j); [lia | exact Hpj].
    - apply nth_error_None in Hpj. lia. }
  apply Forall_forall. intros p Hin.
  destruct (In_nth_error _ _ Hin) as (i & Hi). exact (Hall i p Hi).
Qed.

Lemma equity_stays_positive_witness :
  exists r,
    run_backtest sqrt_rational pow_rational scenario_bars None = Ok r /\
    Forall (fun p => 0 < Equity p) (r_equity r).
Proof.
  eexists. split; [vm_compute; reflexivity|].
  apply (equity_stays_positive sqrt_rational pow_rational scenario_bars None).
  - vm_compute; reflexivity.
  - unfold config_domain. cbn. lra.
  - repeat constructor; vm_compute; congruence.
Defined.

(** ** What the loop reads *)

Lemma simulate_trade_same_prices config cost capital signal b b' :
  same_prices b b' ->
  simulate_trade config cost capital signal b =
  simulate_trade config cost capital signal b'.
Proof.
  intros (_ & Ho & Hh & Hl & Hc). unfold simulate_trade.
  rewrite Ho, Hh, Hl, Hc. reflexivity.
Qed.

(** The run reads the signal of every bar but the last and the date and the
    prices of every bar but the first, and nothing else of the frame: the
    prices of the first bar and the signal of the last bar have no effect on
    the result. *)
Theorem run_backtest_reads_used_inputs_only sqrt pow df df' config :
  same_used_inputs df df' ->
  run_backtest sqrt pow df config = run_backtest sqrt pow df' config.
Proof.
  intros (Hlen & Hsame).
  assert (Hloop : forall c, run_loop df c = run_loop df' c).
  { intros c. unfold run_loop. rewrite <- Hlen.
    apply for_range_ext_in. intros i Hi st. apply in_seq in Hi.
    unfold loop_body, iloc. rewrite Nat.add_1_r.
    destruct (nth_error df i) as [row|] eqn:Hrow;
      [|apply nth_error_None in Hrow; lia].
    destruct (nth_error df' i) as [row'|] eqn:Hrow';
      [|apply nth_error_None in Hrow'; lia].
    destruct (nth_error df (S i)) as [next|] eqn:Hnext;
      [|apply nth_error_None in Hnext; lia].
    destruct (nth_error df' (S i)) as [next'|] eqn:Hnext';
      [|apply nth_error_None in Hnext'; lia].
    destruct (Hsame i row row' Hrow Hrow') as (Hsignal & _).
    destruct (Hsame (S i) next next' Hnext Hnext') as (_ & Hprices).
    cbn [bind]. rewrite (Hsignal ltac:(lia)).
    rewrite (simulate_trade_same_prices _ _ _ _ next next'
               (Hprices ltac:(lia))).
    destruct (Hprices ltac:(lia)) as (-> & -> & _). reflexivity. }
  unfold run_backtest. rewrite Hloop. reflexivity.
Qed.

Lemma run_backtest_reads_used_inputs_only_witness :
  same_used_inputs scenario_bars
    [ {| Date := 7; Open := 2; High := 3; Low := 1; Close := 2;
         ML_Signal := 1 |};
      {| Date := 2; Open := 1.1000; High := 1.1020; Low := 1.0930;
         Close := 1.1010; ML_Signal := 0 |} ] /\
  run_backtest sqrt_rational pow_rational scenario_bars None =
  run_backtest sqrt_rational pow_rational
    [ {| Date := 7; Open := 2; High := 3; Low := 1; Close := 2;
         ML_Signal := 1 |};
      {| Date := 2; Open := 1.1000; High := 1.1020; Low := 1.0930;
         Close := 1.1010; ML_Signal := 0 |} ] None.
Proof.
  assert (H : same_used_inputs scenario_bars
    [ {| Date := 7; Open := 2; High := 3; Low := 1; Close := 2;
         ML_Signal := 1 |};
      {| Date := 2; Open := 1.1000; High := 1.1020; Low := 1.0930;
         Close := 1.1010; ML_Signal := 0 |} ]).
  { split; [reflexivity|]. intros [|[|[|i]]] row row' Hrow Hrow';
      cbn in Hrow, Hrow'; try discriminate;
      injection Hrow as <-; injection Hrow' as <-;
      (split; [cbn; intros; try lia; reflexivity
              | intros; try lia; repeat split]). }
  split; [exact H|].
  apply run_backtest_reads_used_inputs_only. exact H.
Defined.

(** * Further properties of the metrics *)

(** Inversion of a successful [compute_metrics]: exposes the report as the
    record of the expressions of the source. *)
Ltac metrics_inv H :=
  unfold compute_metrics, bind in H; cbv beta zeta in H;
  let a := fresh "annual" in
  let Ha := fresh "Hannual" in
  let f := fresh "final" in
  let Hf := fresh "Hfinal" in
  match type of H with
  | context [annual_return_of ?pow ?eq] =>
      destruct (annual_return_of pow eq) as [a|] eqn:Ha; [|discriminate H];
      destruct (iloc_last eq) as [f|] eqn:Hf; [|discriminate H];
      apply Ok_inj in H; rewrite <- H
  end.

Lemma run_backtest_metrics sqrt pow df config r :
  run_backtest sqrt pow df config = Ok r ->
  compute_metrics sqrt pow (r_trades r) (r_equity r) (r_config r)
    = Ok (r_metrics r).
Proof.
  unfold run_backtest.
  destruct (run_loop df _) as [st|e]; [|discriminate]. cbn [bind].
  destruct (set_index_Date (equity_curve st)) as [equity_df|e];
    [|discriminate].
  cbn [bind].
  destruct (compute_metrics sqrt pow _ equity_df _) as [m|e] eqn:Hm;
    [|discriminate].
  cbn [bind]. intros H. injection H as <-. exact Hm.
Qed.

Lemma iloc_last_Some (s : list Q) (x : Q) :
  iloc_last s = Ok x -> s <> [] /\ x = last s 0.
Proof.
  destruct s as [|y s]; [discriminate|]. intros H. injection H as <-.
  split; [discriminate | reflexivity].
Qed.

(** In exact arithmetic the accumulated equity is the initial capital plus
    the sum of the pnl. *)
Lemma final_equity_sum sqrt pow df config r :
  run_backtest sqrt pow df config = Ok r ->
  last (map Equity (r_equity r)) 0
    == initial_capital (r_config r) + Qsum (map PnL_USD (r_trades r)).
Proof.
  intros Hr.
  destruct (run_backtest_inv sqrt pow df config r Hr)
    as (Hlen & st & _ & (_ & Hle & Hcap & Hsum & _) & Ht & He & Hc).
  rewrite Ht, He, Hc, map_PnL_USD, <- Hsum, Hcap.
  rewrite <- nth_last, length_map, Hle.
  destruct (length df - 1)%nat as [|n] eqn:Hn; [lia|].
  cbn [capital_before]. rewrite Nat.sub_succ, Nat.sub_0_r. reflexivity.
Qed.

Lemma xdiv_Fin (x y : Q) : ~ y == 0 -> xdiv (Fin x) (Fin y) = Fin (x / y).
Proof.
  intros Hy. unfold xdiv.
  destruct (Qeq_bool y 0) eqn:E; [|reflexivity].
  apply Qeq_bool_iff in E. contradiction.
Qed.

Lemma inject_nat_pos (n : nat) : (0 < n)%nat -> 0 < inject_Z (Z.of_nat n).
Proof.
  intros Hn. change 0 with (inject_Z 0). rewrite <- Zlt_Qlt. lia.
Qed.

(** A count over a larger positive count is a fraction between 0 and 1. *)
Lemma ratio_of_counts (k n : nat) :
  (0 < n)%nat -> (k <= n)%nat ->
  exists q, xdiv (of_nat k) (of_nat n) = Fin q /\ 0 <= q /\ q <= 1.
Proof.
  intros Hn Hk. pose proof (inject_nat_pos n Hn) as Hpos.
  unfold of_nat. rewrite xdiv_Fin by lra.
  eexists. split; [reflexivity|].
  assert (H0 : 0 <= inject_Z (Z.of_nat k))
    by (change 0 with (inject_Z 0); rewrite <- Zle_Qle; lia).
  assert (H1 : inject_Z (Z.of_nat k) <= inject_Z (Z.of_nat n))
    by (rewrite <- Zle_Qle; lia).
  split.
  - apply Qle_shift_div_l; [exact Hpos | lra].
  - apply Qle_shift_div_r; [exact Hpos | lra].
Qed.

(** The win rate is a fraction between 0 and 1 on every input; the stop-out
    count never exceeds the trade count, and with at least one trade the
    stop-out rate is a fraction between 0 and 1. *)
Theorem rates_are_fractions sqrt pow trades_df equity_df config m :
  compute_metrics sqrt pow trades_df equity_df config = Ok m ->
  (exists w, Win_Rate m = Fin w /\ 0 <= w /\ w <= 1) /\
  (Stop_outs m <= Total_Trades m)%nat /\
  (trades_df <> [] ->
   exists s, Stop_out_Rate m = Fin s /\ 0 <= s /\ s <= 1).
Proof.
  intros Hm. metrics_inv Hm.
  unfold Win_Rate, Stop_outs, Total_Trades, Stop_out_Rate.
  split; [|split].
  - destruct (Nat.ltb_spec 0 (length trades_df)) as [Hn|Hn].
    + apply ratio_of_counts; [exact Hn|].
      rewrite <- (length_map PnL_USD trades_df). apply filter_length_le.
    + exists 0. split; [reflexivity | lra].
  - apply filter_length_le.
  - intros Hne. apply ratio_of_counts; [|apply filter_length_le].
    destruct trades_df; [congruence | simpl; lia].
Qed.

Lemma rates_are_fractions_witness :
  exists r w,
    run_backtest sqrt_rational pow_rational sample_bars None = Ok r /\
    Win_Rate (r_metrics r) = Fin w /\ 0 <= w /\ w <= 1.
Proof.
  eexists.
  assert (Hr : run_backtest sqrt_rational pow_rational sample_bars None
               = Ok ?[r]) by (vm_compute; reflexivity).
  destruct (rates_are_fractions sqrt_rational pow_rational _ _ _ _
              (run_backtest_metrics _ _ _ _ _ Hr)) as ((w & Hw) & _).
  exists w. split; [exact Hr | exact Hw].
Defined.

(** ** Sharpe ratio of a short curve *)

Lemma length_dropna (s : list ext) : (length (dropna s) <= length s)%nat.
Proof. apply filter_length_le. Qed.

Lemma series_std_short sqrt (s : list ext) :
  (length s <= 1)%nat -> series_std sqrt s = NaN.
Proof.
  intros Hs. unfold series_std. cbv zeta.
  pose proof (length_dropna s) as Hd.
  destruct (Nat.leb_spec (length (dropna s)) 1); [reflexivity | lia].
Qed.

Lemma length_dropna_pct_change (s : list Q) :
  (length (dropna (pct_change s)) <= length s - 1)%nat.
Proof.
  destruct s as [|x rest]; [simpl; lia|].
  unfold pct_change. cbn [dropna filter isna negb].
  fold (dropna (map (fun '(prev, cur) =>
                       xsub (xdiv (Fin cur) (Fin prev)) (Fin 1))
                    (combine (x :: rest) rest))).
  etransitivity; [apply length_dropna|].
  rewrite length_map, length_combine. cbn [length]. lia.
Qed.

(** The Sharpe ratio needs two period returns: on an equity curve of at most
    two points, that is a run over at most three bars, it is 0 whatever the
    trades earned. *)
Theorem sharpe_is_zero_below_three_points
    sqrt pow trades_df equity_df config m :
  compute_metrics sqrt pow trades_df equity_df config = Ok m ->
  (length equity_df <= 2)%nat ->
  Sharpe_Ratio m = Fin 0.
Proof.
  intros Hm Hlen. metrics_inv Hm. unfold Sharpe_Ratio.
  rewrite series_std_short; [reflexivity|].
  etransitivity; [apply length_dropna_pct_change|].
  rewrite length_map. lia.
Qed.

Lemma sharpe_is_zero_below_three_points_witness :
  exists r,
    run_backtest sqrt_rational pow_rational sample_bars None = Ok r /\
    Sharpe_Ratio (r_metrics r) = Fin 0.
Proof.
  eexists.
  assert (Hr : run_backtest sqrt_rational pow_rational sample_bars None
               = Ok ?[r]) by (vm_compute; reflexivity).
  split; [exact Hr|].
  apply (sharpe_is_zero_below_three_points sqrt_rational pow_rational _ _ _ _
           (run_backtest_metrics _ _ _ _ _ Hr)).
  simpl. lia.
Defined.

(** ** The only failure of [compute_metrics] *)

(** On a ledger of at least one trade, [compute_metrics] raises exactly
    when the equity curve is empty, and the exception is then the
    [IndexError] of [iloc[-1]]; on a non-empty curve it returns a report. *)
Theorem compute_metrics_raises_iff_empty_curve
    sqrt pow trades_df equity_df config :
  trades_df <> [] ->
  (equity_df = [] <->
   compute_metrics sqrt pow trades_df equity_df config = Raise IndexError) /\
  (equity_df <> [] <->
   exists m, compute_metrics sqrt pow trades_df equity_df config = Ok m).
Proof.
  intros _. destruct equity_df as [|p rest].
  - assert (H : compute_metrics sqrt pow trades_df [] config
                = Raise IndexError) by reflexivity.
    split; split; try congruence; auto.
    intros (m & Hm). rewrite H in Hm. discriminate.
  - destruct (compute_metrics_total sqrt pow trades_df (p :: rest) config)
      as (m & Hm); [discriminate|].
    split; split; try discriminate; eauto.
Qed.

Lemma compute_metrics_raises_iff_empty_curve_witness :
  exists r,
    run_backtest sqrt_rational pow_rational sample_bars None = Ok r /\
    r_trades r <> [] /\
    compute_metrics sqrt_rational pow_rational (r_trades r) [] (r_config r)
      = Raise IndexError.
Proof.
  eexists. split; [vm_compute; reflexivity|].
  match goal with |- ?A /\ _ => assert (Hne : A) by discriminate end.
  split; [exact Hne|].
  apply (compute_metrics_raises_iff_empty_curve sqrt_rational pow_rational
           _ [] _ Hne).
  reflexivity.
Defined.

(** ** Drawdown *)

Lemma filter_all {A} (f : A -> bool) (s : list A) :
  Forall (fun a => f a = true) s -> filter f s = s.
Proof.
  induction 1 as [|a s Ha _ IH]; simpl; [reflexivity|].
  rewrite Ha, IH. reflexivity.
Qed.

(** The minimum of a non-empty series without NaN is one of its values. *)
Lemma series_min_Forall (P : ext -> Prop) (s : list ext) :
  (forall a, P a -> isna a = false) ->
  s <> [] -> Forall P s -> P (series_min s).
Proof.
  intros Hna Hne HP. unfold series_min, dropna.
  rewrite filter_all.
  - destruct HP as [|a rest Ha Hrest]; [congruence|]. clear Hne.
    revert a Ha. induction Hrest as [|b rest Hb _ IH]; intros a Ha; simpl.
    + exact Ha.
    + apply IH. unfold xmin. destruct (xltb b a); assumption.
  - eapply Forall_impl; [|exact HP]. intros a Ha. cbv beta.
    rewrite (Hna a Ha). reflexivity.
Qed.

Lemma cummax_from_bounds (s : list Q) :
  forall m, 0 < m -> Forall (fun e => 0 < e) s ->
  Forall (fun '(e, M) => 0 < e /\ e <= M) (combine s (cummax_from m s)).
Proof.
  induction s as [|x rest IH]; intros m Hm Hs; simpl; [constructor|].
  inversion Hs as [|? ? Hx Hrest]; subst.
  constructor.
  - split; [exact Hx | apply Q.le_max_r].
  - apply IH; [|exact Hrest].
    apply Qlt_le_trans with m; [exact Hm | apply Q.le_max_l].
Qed.

Lemma cummax_bounds (s : list Q) :
  Forall (fun e => 0 < e) s ->
  Forall (fun '(e, M) => 0 < e /\ e <= M) (combine s (cummax s)).
Proof.
  intros Hs. destruct s as [|x rest]; simpl; [constructor|].
  inversion Hs as [|? ? Hx Hrest]; subst.
  constructor; [split; [exact Hx | apply Qle_refl]|].
  apply cummax_from_bounds; assumption.
Qed.

Lemma drawdown_in_range (e M : Q) :
  0 < e -> e <= M ->
  exists d, xdiv (Fin (e - M)) (Fin M) = Fin d /\ -1 < d /\ d <= 0.
Proof.
  intros He HM. assert (HposM : 0 < M) by lra.
  rewrite xdiv_Fin by lra. eexists. split; [reflexivity|]. split.
  - apply Qlt_shift_div_l; [exact HposM | lra].
  - apply Qle_shift_div_r; [exact HposM | lra].
Qed.

(** On an equity curve that stays positive, the maximum drawdown is a
    fraction in the interval (-1, 0]: never positive, and never a loss of
    the whole peak. *)
Theorem max_drawdown_range sqrt pow trades_df equity_df config m :
  compute_metrics sqrt pow trades_df equity_df config = Ok m ->
  Forall (fun p => 0 < Equity p) equity_df ->
  exists d, Max_Drawdown m = Fin d /\ -1 < d /\ d <= 0.
Proof.
  intros Hm Hpos. metrics_inv Hm. unfold Max_Drawdown.
  apply iloc_last_Some in Hfinal as (Hne & _).
  apply (series_min_Forall
           (fun a => exists d, a = Fin d /\ -1 < d /\ d <= 0)).
  - intros a (d & -> & _). reflexivity.
  - destruct (map Equity equity_df) as [|x rest]; [congruence|].
    simpl. discriminate.
  - apply Forall_map.
    assert (Hq : Forall (fun e => 0 < e) (map Equity equity_df))
      by (apply Forall_map; exact Hpos).
    eapply Forall_impl; [|apply cummax_bounds; exact Hq].
    intros (e, M) (He & HM). apply drawdown_in_range; assumption.
Qed.

Lemma max_drawdown_range_witness :
  exists r d,
    run_backtest sqrt_rational pow_rational sample_bars None = Ok r /\
    Max_Drawdown (r_metrics r) = Fin d /\ -1 < d /\ d <= 0.
Proof.
  eexists.
  assert (Hr : run_backtest sqrt_rational pow_rational sample_bars None
               = Ok ?[r]) by (vm_compute; reflexivity).
  destruct (max_drawdown_range sqrt_rational pow_rational _ _ _ _
              (run_backtest_metrics _ _ _ _ _ Hr)) as (d & Hd).
  { repeat constructor. }
  exists d. split; [exact Hr | exact Hd].
Defined.

Lemma nondecreasing_from_le (s : list Q) (m m' : Q) :
  m' <= m -> nondecreasing_from m s -> nondecreasing_from m' s.
Proof.
  destruct s as [|x rest]; simpl; [trivial|].
  intros Hm (Hx & Hrest). split; [lra | exact Hrest].
Qed.

(** On a series that never declines the running maximum is the series
    itself, up to the representation of the rationals. *)
Lemma cummax_from_nondecreasing (s : list Q) :
  forall m, nondecreasing_from m s ->
  Forall (fun '(e, M) => e == M) (combine s (cummax_from m s)).
Proof.
  induction s as [|x rest IH]; intros m H; simpl; [constructor|].
  destruct H as (Hm & Hrest).
  pose proof (Q.max_r m x Hm) as Hmax.
  constructor; [symmetry; exact Hmax|].
  apply IH. apply nondecreasing_from_le with x; [lra | exact Hrest].
Qed.

Lemma cummax_never_declines (s : list Q) :
  never_declines s ->
  Forall (fun '(e, M) => e == M) (combine s (cummax s)).
Proof.
  destruct s as [|x rest]; simpl; [constructor|].
  intros H. constructor; [reflexivity|].
  apply cummax_from_nondecreasing. exact H.
Qed.

Lemma Forall_combine_l {A B} (P : A -> Prop) (Q : A * B -> Prop)
    (s : list A) (s' : list B) :
  Forall P s -> Forall Q (combine s s') ->
  Forall (fun ab => P (fst ab) /\ Q ab) (combine s s').
Proof.
  intros HP. revert s'.
  induction HP as [|a s Ha _ IH]; intros [|b s'] HQ; simpl in *;
    try constructor.
  - inversion HQ; subst. split; assumption.
  - inversion HQ; subst. apply IH. assumption.
Qed.

(** The drawdown series of a positive series that never declines has the
    minimum 0. *)
Lemma rising_curve_drawdown (equity : list Q) :
  equity <> [] ->
  Forall (fun e => 0 < e) equity ->
  never_declines equity ->
  exists d,
    series_min (map (fun '(e, m) => xdiv (Fin (e - m)) (Fin m))
                    (combine equity (cummax equity))) = Fin d /\
    d == 0.
Proof.
  intros Hne Hpos Hmono.
  apply (series_min_Forall (fun a => exists d, a = Fin d /\ d == 0)).
  - intros a (d & -> & _). reflexivity.
  - destruct equity; [congruence | discriminate].
  - apply Forall_map.
    eapply Forall_impl;
      [|apply (Forall_combine_l _ _ _ _ Hpos
                 (cummax_never_declines _ Hmono))].
    intros (e, M) (He & HM). cbn [fst] in He.
    rewrite xdiv_Fin by lra. eexists. split; [reflexivity|].
    field_simplify_eq; lra.
Qed.

(** On a positive equity curve that never declines the maximum drawdown is
    zero and the Calmar ratio is the infinite sentinel. *)
Theorem no_decline_no_drawdown sqrt pow trades_df equity_df config m :
  compute_metrics sqrt pow trades_df equity_df config = Ok m ->
  Forall (fun p => 0 < Equity p) equity_df ->
  never_declines (map Equity equity_df) ->
  (exists d, Max_Drawdown m = Fin d /\ d == 0) /\
  Calmar_Ratio m = PInf.
Proof.
  intros Hm Hpos Hmono. metrics_inv Hm. unfold Max_Drawdown, Calmar_Ratio.
  apply iloc_last_Some in Hfinal as (Hne & _).
  destruct (rising_curve_drawdown (map Equity equity_df) Hne)
    as (d & Hd & Hzero); [apply Forall_map; exact Hpos | exact Hmono |].
  rewrite Hd. split; [eauto|]. cbn [xeqb].
  apply Qeq_bool_iff in Hzero. rewrite Hzero. reflexivity.
Qed.

Lemma no_decline_no_drawdown_witness :
  exists r,
    run_backtest sqrt_rational pow_rational winning_bars None = Ok r /\
    Calmar_Ratio (r_metrics r) = PInf.
Proof.
  eexists.
  assert (Hr : run_backtest sqrt_rational pow_rational winning_bars None
               = Ok ?[r]) by (vm_compute; reflexivity).
  split; [exact Hr|].
  apply (no_decline_no_drawdown sqrt_rational pow_rational _ _ _ _
           (run_backtest_metrics _ _ _ _ _ Hr)).
  - repeat constructor.
  - cbn. split; [vm_compute; discriminate | exact I].
Defined.

(** ** Signs of the averages and of the profit factor *)

Lemma Qltb_lt (x y : Q) : Qltb x y = true <-> x < y.
Proof.
  unfold Qltb. rewrite negb_true_iff. split.
  - intros H. apply Qnot_le_lt. intros Hle.
    apply Qle_bool_iff in Hle. congruence.
  - intros H. destruct (Qle_bool y x) eqn:E; [|reflexivity].
    apply Qle_bool_iff in E. lra.
Qed.

Lemma fold_left_Qplus (s : list Q) :
  forall a, fold_left Qplus s a == a + Qsum s.
Proof.
  unfold Qsum. induction s as [|x rest IH]; intros a; simpl; [ring|].
  rewrite (IH (a + x)), (IH (0 + x)). ring.
Qed.

Lemma Qsum_cons (x : Q) (s : list Q) : Qsum (x :: s) == x + Qsum s.
Proof.
  unfold Qsum at 1. simpl. rewrite fold_left_Qplus. ring.
Qed.

Lemma Qsum_nonneg (s : list Q) : Forall (fun x => 0 <= x) s -> 0 <= Qsum s.
Proof.
  induction 1 as [|x rest Hx _ IH]; [unfold Qsum; simpl; lra|].
  rewrite Qsum_cons. lra.
Qed.

Lemma Qsum_nonpos (s : list Q) : Forall (fun x => x <= 0) s -> Qsum s <= 0.
Proof.
  induction 1 as [|x rest Hx _ IH]; [unfold Qsum; simpl; lra|].
  rewrite Qsum_cons. lra.
Qed.

Lemma Qsum_pos (s : list Q) :
  s <> [] -> Forall (fun x => 0 < x) s -> 0 < Qsum s.
Proof.
  intros Hne Hs. destruct Hs as [|x rest Hx Hrest]; [congruence|].
  rewrite Qsum_cons.
  assert (0 <= Qsum rest).
  { apply Qsum_nonneg. eapply Forall_impl; [|exact Hrest].
    intros a Ha. cbv beta in *. lra. }
  lra.
Qed.

Lemma winners_positive (pnl : list Q) :
  Forall (fun x => 0 < x) (filter (fun p => Qltb 0 p) pnl).
Proof.
  apply Forall_forall. intros x Hx. apply filter_In in Hx as (_ & Hx).
  apply Qltb_lt. exact Hx.
Qed.

Lemma losers_nonpositive (pnl : list Q) :
  Forall (fun x => x <= 0) (filter (fun p => Qle_bool p 0) pnl).
Proof.
  apply Forall_forall. intros x Hx. apply filter_In in Hx as (_ & Hx).
  apply Qle_bool_iff. exact Hx.
Qed.

Lemma Qmean_Fin (s : list Q) :
  s <> [] ->
  Qmean s = Fin (Qsum s / inject_Z (Z.of_nat (length s))) /\
  0 < inject_Z (Z.of_nat (length s)).
Proof.
  intros Hne.
  assert (Hpos : 0 < inject_Z (Z.of_nat (length s))).
  { apply inject_nat_pos. destruct s; [congruence | simpl; lia]. }
  split; [|exact Hpos]. unfold Qmean, of_nat. apply xdiv_Fin. lra.
Qed.

(** Signs of the report: the average win is positive as soon as one trade
    wins and is 0 otherwise, the average loss is never positive, and the
    profit factor is never negative. *)
Theorem averages_have_their_sign sqrt pow trades_df equity_df config m :
  compute_metrics sqrt pow trades_df equity_df config = Ok m ->
  (Exists (fun t => 0 < PnL_USD t) trades_df ->
   exists a, Avg_Win m = Fin a /\ 0 < a) /\
  (~ Exists (fun t => 0 < PnL_USD t) trades_df -> Avg_Win m = Fin 0) /\
  (exists b, Avg_Loss m = Fin b /\ b <= 0) /\
  xltb (Profit_Factor m) (Fin 0) = false.
Proof.
  intros Hm. metrics_inv Hm. unfold Avg_Win, Avg_Loss, Profit_Factor.
  set (pnl := map PnL_USD trades_df).
  set (wins := filter (fun p => Qltb 0 p) pnl).
  set (losses := filter (fun p => Qle_bool p 0) pnl).
  pose proof (winners_positive pnl) as Hwins. fold wins in Hwins.
  pose proof (losers_nonpositive pnl) as Hlosses. fold losses in Hlosses.
  assert (Hiff : Exists (fun t => 0 < PnL_USD t) trades_df <-> wins <> []).
  { split.
    - intros Hex E. apply Exists_exists in Hex as (t & Hin & Ht).
      assert (Hw : In (PnL_USD t) wins).
      { apply filter_In. split; [apply in_map; exact Hin|].
        apply Qltb_lt. exact Ht. }
      rewrite E in Hw. exact Hw.
    - intros Hne. destruct wins as [|x rest] eqn:E; [congruence|].
      assert (Hx : In x wins) by (rewrite E; left; reflexivity).
      apply filter_In in Hx as (Hin & Hx). apply Qltb_lt in Hx.
      apply in_map_iff in Hin as (t & <- & Hin).
      apply Exists_exists. exists t. split; assumption. }
  split; [|split; [|split]].
  - intros Hex. apply Hiff in Hex.
    destruct (Qmean_Fin wins Hex) as (Hmean & Hpos).
    pose proof (Qsum_pos wins Hex Hwins) as Hsum.
    assert (Hn : (0 <? length wins)%nat = true)
      by (apply Nat.ltb_lt; destruct wins; [congruence | simpl; lia]).
    rewrite Hn, Hmean. eexists. split; [reflexivity|].
    apply Qlt_shift_div_l; [exact Hpos | lra].
  - intros Hno.
    assert (E : wins = []).
    { destruct wins as [|x rest] eqn:E; [reflexivity|].
      exfalso. apply Hno, Hiff. discriminate. }
    rewrite E. reflexivity.
  - destruct (Nat.ltb_spec 0 (length losses)) as [Hn|Hn].
    + assert (Hne : losses <> [])
        by (intros E; rewrite E in Hn; simpl in Hn; lia).
      destruct (Qmean_Fin losses Hne) as (-> & Hpos).
      pose proof (Qsum_nonpos losses Hlosses) as Hsum.
      eexists. split; [reflexivity|].
      apply Qle_shift_div_r; [exact Hpos | lra].
    + exists 0. split; [reflexivity | lra].
  - destruct (0 <? length losses)%nat; [|reflexivity].
    assert (Hw : 0 <= Qsum wins).
    { apply Qsum_nonneg. eapply Forall_impl; [|exact Hwins].
      intros a Ha. cbv beta in *. lra. }
    pose proof (Qabs_nonneg (Qsum losses)) as Hl.
    unfold xdiv. destruct (Qeq_bool (Qabs (Qsum losses)) 0) eqn:E.
    + destruct (Qsum wins ?= 0) eqn:Ecmp; try reflexivity.
      apply Qlt_alt in Ecmp. lra.
    + apply Qeq_bool_neq in E. cbn [xltb]. unfold Qltb.
      rewrite negb_false_iff. apply Qle_bool_iff.
      apply Qle_shift_div_l; lra.
Qed.

Lemma averages_have_their_sign_witness :
  exists r a,
    run_backtest sqrt_rational pow_rational sample_bars None = Ok r /\
    Exists (fun t => 0 < PnL_USD t) (r_trades r) /\
    Avg_Win (r_metrics r) = Fin a /\ 0 < a.
Proof.
  eexists.
  assert (Hr' : run_backtest sqrt_rational pow_rational sample_bars None
                = Ok ?[r]) by (vm_compute; reflexivity).
  match type of Hr' with _ = Ok ?r =>
    assert (Hex : Exists (fun t => 0 < PnL_USD t) (r_trades r))
      by (right; left; reflexivity);
    destruct (averages_have_their_sign sqrt_rational pow_rational _ _ _ _
                (run_backtest_metrics _ _ _ _ _ Hr'))
      as (Hwin & _)
  end.
  destruct (Hwin Hex) as (a & Ha & Hpos).
  exists a. split; [exact Hr'|]. split; [exact Hex|].
  split; [exact Ha | exact Hpos].
Defined.

(** ** A run in which every trade wins *)

(** A series whose every value is at least the one before it, the first
    being at least [c0], never declines from [c0]. *)
Lemma nondecreasing_from_steps (s : list Q) :
  forall c0,
    (forall i x, nth_error s i = Some x ->
       match i with O => c0 | S j => nth j s 0 end <= x) ->
    nondecreasing_from c0 s.
Proof.
  induction s as [|a rest IH]; intros c0 H; simpl; [exact I|].
  split; [exact (H 0%nat a eq_refl)|].
  apply IH. intros i x Hx. specialize (H (S i) x Hx).
  destruct i; exact H.
Qed.

Lemma nondecreasing_from_positive (s : list Q) :
  forall c0, 0 < c0 -> nondecreasing_from c0 s -> Forall (fun x => 0 < x) s.
Proof.
  induction s as [|a rest IH]; intros c0 Hc H; [constructor|].
  destruct H as (Ha & Hrest).
  constructor; [lra|]. apply (IH a); [lra | exact Hrest].
Qed.

Lemma nondecreasing_never_declines (s : list Q) (c0 : Q) :
  nondecreasing_from c0 s -> never_declines s.
Proof. destruct s; simpl; [trivial | intros (_ & H); exact H]. Qed.

(** When every trade of a completed run wins, the equity curve rises from
    the initial capital. *)
Lemma winning_run_curve sqrt pow df config r :
  run_backtest sqrt pow df config = Ok r ->
  Forall (fun t => 0 < PnL_USD t) (r_trades r) ->
  nondecreasing_from (initial_capital (r_config r)) (map Equity (r_equity r)).
Proof.
  intros Hr Hwin. apply nondecreasing_from_steps. intros i x Hx.
  destruct (run_backtest_lengths sqrt pow df config r Hr) as (_ & _ & Hle).
  assert (Hi : (i < length df - 1)%nat).
  { rewrite <- Hle, <- (length_map Equity). apply nth_error_Some. congruence. }
  destruct (run_backtest_entry sqrt pow df config r i Hr Hi)
    as (row & next_row & _ & _ & Htrade & Hpoint).
  cbv zeta in Htrade, Hpoint.
  rewrite (map_nth_error Equity _ _ Hpoint) in Hx. injection Hx as <-.
  cbn [Equity].
  rewrite Forall_forall in Hwin.
  pose proof (Hwin _ (nth_error_In _ _ Htrade)) as Hpnl.
  cbn [trade_row recorded_trade PnL_USD pnl_usd] in Hpnl.
  change (capital_before (r_config r) (r_equity r) i
          <= capital_before (r_config r) (r_equity r) i
             + v_pnl_usd
                 (simulate_trade (r_config r) (transaction_cost_of (r_config r))
                    (capital_before (r_config r) (r_equity r) i)
                    (ML_Signal row) next_row)).
  lra.
Qed.

(** A run that starts from a positive capital and in which every trade wins
    reports a win rate of 1, no average loss, the infinite profit factor, a
    positive average win, no drawdown and the infinite Calmar ratio. *)
Theorem all_winning_run sqrt pow df config r :
  run_backtest sqrt pow df config = Ok r ->
  0 < initial_capital (r_config r) ->
  Forall (fun t => 0 < PnL_USD t) (r_trades r) ->
  xeq (Win_Rate (r_metrics r)) (Fin 1) /\
  Avg_Loss (r_metrics r) = Fin 0 /\
  Profit_Factor (r_metrics r) = PInf /\
  (exists a, Avg_Win (r_metrics r) = Fin a /\ 0 < a) /\
  xeq (Max_Drawdown (r_metrics r)) (Fin 0) /\
  Calmar_Ratio (r_metrics r) = PInf.
Proof.
  intros Hr Hcap Hwin.
  pose proof (winning_run_curve sqrt pow df config r Hr Hwin) as Hcurve.
  pose proof (run_backtest_metrics sqrt pow df config r Hr) as Hm.
  destruct (run_backtest_lengths sqrt pow df config r Hr) as (Hlen & Hlt & _).
  assert (Hne : r_trades r <> [])
    by (intros E; rewrite E in Hlt; simpl in Hlt; lia).
  assert (Hn : (0 < length (r_trades r))%nat)
    by (destruct (r_trades r); [congruence | simpl; lia]).
  pose proof (inject_nat_pos _ Hn) as Hposn.
  assert (Hall : filter (fun p => Qltb 0 p) (map PnL_USD (r_trades r))
                 = map PnL_USD (r_trades r)).
  { apply filter_all, Forall_map. eapply Forall_impl; [|exact Hwin].
    intros t Ht. apply Qltb_lt. exact Ht. }
  assert (Hnone : filter (fun p => Qle_bool p 0) (map PnL_USD (r_trades r))
                  = []).
  { clear -Hwin. induction Hwin as [|t ts Ht _ IH]; [reflexivity|].
    cbn [map filter]. destruct (Qle_bool (PnL_USD t) 0) eqn:E; [|exact IH].
    apply Qle_bool_iff in E. lra. }
  assert (Hsum : 0 < Qsum (map PnL_USD (r_trades r))).
  { apply Qsum_pos; [|apply Forall_map; exact Hwin].
    destruct (r_trades r); [congruence | discriminate]. }
  metrics_inv Hm.
  unfold Win_Rate, Avg_Loss, Profit_Factor, Avg_Win, Max_Drawdown,
    Calmar_Ratio.
  apply iloc_last_Some in Hfinal as (Hcurve_ne & _).
  destruct (rising_curve_drawdown (map Equity (r_equity r)) Hcurve_ne)
    as (d & Hd & Hzero).
  { exact (nondecreasing_from_positive _ _ Hcap Hcurve). }
  { exact (nondecreasing_never_declines _ _ Hcurve). }
  rewrite Hd, Hall, Hnone, !length_map. cbn [length].
  apply Nat.ltb_lt in Hn as Hn'. rewrite Hn'. cbn [Nat.ltb Nat.leb].
  unfold Qmean, of_nat. rewrite length_map, !xdiv_Fin by lra.
  split; [cbn [xeq]; field; lra|].
  split; [reflexivity|]. split; [reflexivity|].
  split; [eexists; split; [reflexivity|];
          apply Qlt_shift_div_l; [exact Hposn | lra]|].
  split; [exact Hzero|]. cbn [xeqb].
  apply Qeq_bool_iff in Hzero. rewrite Hzero. reflexivity.
Qed.

Lemma all_winning_run_witness :
  exists r,
    run_backtest sqrt_rational pow_rational winning_bars None = Ok r /\
    Profit_Factor (r_metrics r) = PInf /\
    Calmar_Ratio (r_metrics r) = PInf.
Proof.
  eexists.
  assert (Hr : run_backtest sqrt_rational pow_rational winning_bars None
               = Ok ?[r]) by (vm_compute; reflexivity).
  destruct (all_winning_run sqrt_rational pow_rational winning_bars None _ Hr)
    as (_ & _ & Hpf & _ & _ & Hcalmar).
  - reflexivity.
  - repeat constructor.
  - split; [exact Hr|]. split; [exact Hpf | exact Hcalmar].
Defined.

(** * Properties of the callers *)

Example str_replace_examples :
  str_replace "results/backtest_report.png" ".png" "_trades.csv"
    = "results/backtest_report_trades.csv"%string /\
  str_replace "a.png.png" ".png" "-" = "a--"%string /\
  str_replace "aaa" "aa" "b" = "ba"%string /\
  str_replace "ab" EmptyString "-" = "-a-b-"%string /\
  clean_number "1,0945" = "1.0945"%string.
Proof. repeat split. Qed.

(** ** Occurrences and [str.replace] *)

Lemma prefix_append (old s : string) :
  prefix old s = true <-> exists b, s = (old ++ b)%string.
Proof.
  revert s. induction old as [|c old IH]; intros s.
  - split; [exists s; reflexivity | intros _; destruct s; reflexivity].
  - destruct s as [|x rest]; simpl.
    + split; [discriminate | intros (b & H); discriminate].
    + destruct (ascii_dec c x) as [->|Hne].
      * rewrite IH. split; intros (b & H); exists b; [congruence|].
        injection H as ->. reflexivity.
      * split; [discriminate | intros (b & H)].
        injection H as Hx _. congruence.
Qed.

Lemma occurs_tail (old s : string) (c : ascii) :
  occurs old (String c s) -> prefix old (String c s) = false ->
  occurs old s.
Proof.
  intros (a & b & H) Hp. destruct a as [|x a].
  - assert (prefix old (String c s) = true)
      by (apply prefix_append; exists b; exact H).
    congruence.
  - simpl in H. injection H as _ ->. exists a, b. reflexivity.
Qed.

Lemma occurs_cons (old s : string) (c : ascii) :
  occurs old s -> occurs old (String c s).
Proof.
  intros (a & b & ->). exists (String c a), b. reflexivity.
Qed.

Lemma prefix_occurs (old s : string) : prefix old s = true -> occurs old s.
Proof.
  intros H. apply prefix_append in H as (b & ->).
  exists EmptyString, b. reflexivity.
Qed.

(** Where the pattern does not occur, [str.replace] returns its argument. *)
Lemma str_replace_no_occurrence (s old new : string) :
  old <> EmptyString -> ~ occurs old s -> str_replace s old new = s.
Proof.
  intros Hold. unfold str_replace.
  induction s as [|c rest IH]; intros Hno.
  - destruct old; [congruence | reflexivity].
  - cbn [replace_from].
    destruct (prefix old (String c rest)) eqn:Hp.
    + exfalso. apply Hno, prefix_occurs. exact Hp.
    + rewrite IH; [reflexivity|].
      intros Hocc. apply Hno, occurs_cons. exact Hocc.
Qed.

(** The export paths of [main].  When [".png"] occurs in the output
    argument, the two CSV paths differ from each other and from the output
    argument.  When it does not, both CSV paths are the output argument
    itself, hence the same path for the two exports. *)
Theorem export_paths (output : string) :
  (occurs ".png" output ->
   trades_csv_path output <> equity_csv_path output /\
   trades_csv_path output <> output /\
   equity_csv_path output <> output) /\
  (~ occurs ".png" output ->
   trades_csv_path output = output /\ equity_csv_path output = output).
Proof.
  split.
  - unfold trades_csv_path, equity_csv_path, str_replace.
    induction output as [|c rest IH]; intros Hocc.
    + destruct Hocc as (a & b & H). destruct a; discriminate H.
    + cbn [replace_from].
      destruct (prefix ".png" (String c rest)) eqn:Hp.
      * apply prefix_append in Hp as (b & Hb). injection Hb as -> _.
        repeat split; discriminate.
      * destruct (IH (occurs_tail _ _ _ Hocc Hp)) as (H1 & H2 & H3).
        repeat split; congruence.
  - intros Hno. split; apply str_replace_no_occurrence;
      (discriminate || exact Hno).
Qed.

Lemma export_paths_witness :
  occurs ".png" "results/backtest_report.png" /\
  trades_csv_path "results/backtest_report.png"
    <> equity_csv_path "results/backtest_report.png" /\
  ~ occurs ".png" "report.jpg" /\
  trades_csv_path "report.jpg" = "report.jpg"%string /\
  equity_csv_path "report.jpg" = "report.jpg"%string.
Proof.
  assert (Hocc : occurs ".png" "results/backtest_report.png")
    by (exists "results/backtest_report"%string, EmptyString; reflexivity).
  assert (Hno : ~ occurs ".png" "report.jpg").
  { intros (a & b & H).
    repeat (destruct a as [|? a]; [discriminate H|];
            simpl in H; injection H as _ H).
    destruct a; discriminate H. }
  destruct (export_paths "results/backtest_report.png") as (Hyes & _).
  destruct (export_paths "report.jpg") as (_ & Hsame).
  destruct (Hyes Hocc) as (Hdiff & _). destruct (Hsame Hno) as (H1 & H2).
  repeat split; assumption.
Defined.

(** ** Cleaning of the number columns *)

Lemma list_ascii_of_append (a b : string) :
  list_ascii_of_string (a ++ b)
  = (list_ascii_of_string a ++ list_ascii_of_string b)%list.
Proof.
  induction a as [|c a IH]; simpl; [reflexivity|].
  rewrite IH. reflexivity.
Qed.

(** Replacing a single character: one step. *)
Lemma replace_char_step (c x : ascii) (new rest : string) :
  replace_from 0 (String c EmptyString) new (String x rest)
  = if ascii_dec c x
    then (new ++ replace_from 0 (String c EmptyString) new rest)%string
    else String x (replace_from 0 (String c EmptyString) new rest).
Proof.
  cbn [replace_from prefix String.length].
  destruct (ascii_dec c x); [|reflexivity].
  destruct rest; reflexivity.
Qed.

(** After the replacement of a character, a character of the result is the
    replaced one only if the replacement holds it; every other one comes
    from the argument or from the replacement. *)
Lemma replace_char_chars (c : ascii) (new s : string) (y : ascii) :
  In y (list_ascii_of_string (str_replace s (String c EmptyString) new)) ->
  (In y (list_ascii_of_string s) /\ y <> c)
  \/ In y (list_ascii_of_string new).
Proof.
  unfold str_replace. induction s as [|x rest IH]; [intros []|].
  rewrite replace_char_step. destruct (ascii_dec c x) as [->|Hne].
  - rewrite list_ascii_of_append, in_app_iff. intros [H|H]; [right; exact H|].
    destruct (IH H) as [(Hin & Hy)|Hin]; [left | right; exact Hin].
    split; [right; exact Hin | exact Hy].
  - intros [<-|H]; [left; split; [left; reflexivity | congruence]|].
    destruct (IH H) as [(Hin & Hy)|Hin]; [left | right; exact Hin].
    split; [right; exact Hin | exact Hy].
Qed.

Lemma replace_char_absent (c : ascii) (new s : string) :
  ~ In c (list_ascii_of_string s) ->
  str_replace s (String c EmptyString) new = s.
Proof.
  unfold str_replace. induction s as [|x rest IH]; intros Hno;
    [reflexivity|].
  rewrite replace_char_step. destruct (ascii_dec c x) as [->|Hne].
  - exfalso. apply Hno. left. reflexivity.
  - rewrite IH; [reflexivity|]. intros H. apply Hno. right. exact H.
Qed.

(** Cleaning a number leaves no comma and no double quote, brings in no
    character but the dot, and changes nothing in a string that holds
    neither a comma nor a double quote. *)
Theorem clean_number_spec (s : string) :
  ~ In ","%char (list_ascii_of_string (clean_number s)) /\
  ~ In "034"%char (list_ascii_of_string (clean_number s)) /\
  (forall y, In y (list_ascii_of_string (clean_number s)) ->
             In y (list_ascii_of_string s) \/ y = "."%char) /\
  (~ In ","%char (list_ascii_of_string s) ->
   ~ In "034"%char (list_ascii_of_string s) ->
   clean_number s = s).
Proof.
  unfold clean_number, double_quote.
  assert (Hstep : forall y,
    In y (list_ascii_of_string
            (str_replace (str_replace s "," ".") (String "034"%char EmptyString)
                         EmptyString)) ->
    y <> "034"%char /\
    ((In y (list_ascii_of_string s) /\ y <> ","%char) \/ y = "."%char)).
  { intros y Hy.
    apply replace_char_chars in Hy as [(Hy & Hq)|[]].
    split; [exact Hq|].
    apply replace_char_chars in Hy as [Hy|[<-|[]]]; [left; exact Hy|].
    right. reflexivity. }
  repeat split.
  - intros H. destruct (Hstep _ H) as (_ & [(_ & Hc)|Hc]);
      [congruence | discriminate].
  - intros H. destruct (Hstep _ H) as (Hq & _). congruence.
  - intros y H. destruct (Hstep _ H) as (_ & [(Hy & _)|Hy]); auto.
  - intros Hcomma Hquote.
    rewrite (replace_char_absent ","%char "." s Hcomma).
    apply replace_char_absent. exact Hquote.
Qed.

Lemma clean_number_spec_witness :
  ~ In ","%char (list_ascii_of_string "1.0945") /\
  ~ In "034"%char (list_ascii_of_string "1.0945") /\
  clean_number "1.0945" = "1.0945"%string.
Proof.
  assert (H1 : ~ In ","%char (list_ascii_of_string "1.0945"))
    by (simpl; intuition discriminate).
  assert (H2 : ~ In "034"%char (list_ascii_of_string "1.0945"))
    by (simpl; intuition discriminate).
  destruct (clean_number_spec "1.0945") as (_ & _ & _ & Hsame).
  split; [exact H1 | split; [exact H2 | exact (Hsame H1 H2)]].
Defined.

(** ** The plotted series *)

Lemma cumsum_from_sum (pnl : list Q) :
  forall a b i w l,
    nth_error (cumsum_from a (map (fun p => Qltb 0 p) pnl)) i = Some w ->
    nth_error (cumsum_from b (map (fun p => Qle_bool p 0) pnl)) i = Some l ->
    (w + l = a + b + S i)%nat.
Proof.
  induction pnl as [|p rest IH]; intros a b i w l Hw Hl.
  - destruct i; discriminate.
  - cbn [map cumsum_from] in Hw, Hl. unfold Qltb in Hw.
    destruct i as [|i]; cbn [nth_error] in Hw, Hl.
    + injection Hw as <-. injection Hl as <-.
      destruct (Qle_bool p 0); simpl; lia.
    + specialize (IH _ _ _ _ _ Hw Hl).
      destruct (Qle_bool p 0); simpl in IH; lia.
Qed.

Lemma cumsum_from_last (f : Q -> bool) (pnl : list Q) :
  forall a,
    last (cumsum_from a (map f pnl)) a = (a + length (filter f pnl))%nat.
Proof.
  induction pnl as [|p rest IH]; intros a; [simpl; lia|].
  cbn [map cumsum_from filter].
  set (a' := (a + (if f p then 1 else 0))%nat).
  rewrite last_cons_default, IH. subst a'. destruct (f p); simpl; lia.
Qed.

(** The two curves of the cumulative panel: at every trade the wins and the
    losses counted so far add up to the number of trades so far, and the
    curves end at the winner and loser counts of [compute_metrics]. *)
Theorem cumulative_counts (pnl : list Q) :
  length (cum_wins pnl) = length pnl /\
  length (cum_loss pnl) = length pnl /\
  (forall i w l,
     nth_error (cum_wins pnl) i = Some w ->
     nth_error (cum_loss pnl) i = Some l ->
     (w + l = S i)%nat) /\
  last (cum_wins pnl) 0%nat = length (filter (fun p => Qltb 0 p) pnl) /\
  last (cum_loss pnl) 0%nat = length (filter (fun p => Qle_bool p 0) pnl).
Proof.
  assert (Hlen : forall (s : list bool) a, length (cumsum_from a s) = length s).
  { induction s as [|b s IH]; intros a; simpl; [reflexivity|].
    rewrite IH. reflexivity. }
  unfold cum_wins, cum_loss, cumsum.
  rewrite !Hlen, !length_map. repeat split.
  - intros i w l Hw Hl. apply (cumsum_from_sum pnl 0 0 i w l Hw Hl).
  - apply (cumsum_from_last _ pnl 0%nat).
  - apply (cumsum_from_last _ pnl 0%nat).
Qed.

(** Colours against the win/loss split: a bar is green while its trade is
    counted among the losses exactly when its pnl is zero. *)
Theorem breakeven_trade_is_green_and_a_loss (pnl : list Q) (i : nat) (v : Q) :
  nth_error pnl i = Some v ->
  (nth_error (colors pnl) i = Some GREEN /\ Qle_bool v 0 = true) <-> v == 0.
Proof.
  intros Hv. unfold colors. rewrite (map_nth_error _ _ _ Hv).
  destruct (Qle_bool 0 v) eqn:Hge.
  - apply Qle_bool_iff in Hge. rewrite Qle_bool_iff. split.
    + intros (_ & Hle). lra.
    + intros H. split; [reflexivity | lra].
  - split.
    + intros (Hc & _). injection Hc as Hc. discriminate Hc.
    + intros H. assert (Hle : 0 <= v) by lra.
      apply Qle_bool_iff in Hle. congruence.
Qed.

Lemma breakeven_trade_is_green_and_a_loss_witness :
  nth_error [12; 0; -3] 1 = Some 0 /\
  nth_error (colors [12; 0; -3]) 1 = Some GREEN /\
  Qle_bool 0 0 = true.
Proof.
  split; [reflexivity|].
  apply (breakeven_trade_is_green_and_a_loss [12; 0; -3] 1 0 eq_refl).
  reflexivity.
Defined.

(** ** Compounding and the split of the ledger *)

(** Position sizing compounds: the position of every trade is sized on the
    capital as the previous trades left it, the previous equity point (the
    initial capital for the first trade), and not on the initial capital:
    it is [capital * position_size_pct * leverage / entry], as line 76-77
    compute it. *)
Theorem position_sizing_compounds sqrt pow df config r i t :
  run_backtest sqrt pow df config = Ok r ->
  nth_error (r_trades r) i = Some t ->
  Position_EUR t
  = capital_before (r_config r) (r_equity r) i
    * position_size_pct (r_config r) * leverage (r_config r) / Entry t.
Proof.
  intros Hr Ht.
  destruct (run_backtest_lengths sqrt pow df config r Hr) as (_ & Hlt & _).
  assert (Hi : (i < length df - 1)%nat).
  { rewrite <- Hlt. apply nth_error_Some. congruence. }
  destruct (run_backtest_entry sqrt pow df config r i Hr Hi)
    as (row & next_row & _ & _ & Htrade & _).
  cbv zeta in Htrade. rewrite Ht in Htrade. injection Htrade as ->.
  cbn [trade_row recorded_trade Entry Position_EUR entry_price position_size].
  match goal with |- context [simulate_trade ?c ?k ?cap ?s ?b] =>
    destruct (simulate_trade_pnl c k cap s b) as (Hvalue & Hsize & _)
  end.
  cbv zeta in Hvalue, Hsize. rewrite Hsize, Hvalue. reflexivity.
Qed.

Lemma position_sizing_compounds_witness :
  exists r t,
    run_backtest sqrt_rational pow_rational sample_bars None = Ok r /\
    nth_error (r_trades r) 1 = Some t /\
    Position_EUR t
    = capital_before (r_config r) (r_equity r) 1
      * position_size_pct (r_config r) * leverage (r_config r) / Entry t.
Proof.
  eexists. eexists.
  split; [vm_compute; reflexivity|]. split; [reflexivity|].
  eapply (position_sizing_compounds sqrt_rational pow_rational sample_bars
            None).
  - vm_compute; reflexivity.
  - reflexivity.
Defined.

(** The report splits the ledger: every trade is counted once, as a winner
    (pnl > 0) or as a loser (pnl <= 0), so that the two counts add up to the
    trade count of the report. *)
Theorem winners_and_losers_split_the_ledger
    sqrt pow trades_df equity_df config m :
  compute_metrics sqrt pow trades_df equity_df config = Ok m ->
  let pnl := map PnL_USD trades_df in
  (length (filter (fun p => Qltb 0 p) pnl)
   + length (filter (fun p => Qle_bool p 0) pnl)
   = Total_Trades m)%nat.
Proof.
  intros Hm pnl. metrics_inv Hm. unfold Total_Trades.
  assert (Hneg : filter (fun p => Qle_bool p 0) pnl
                 = filter (fun p => negb (Qltb 0 p)) pnl).
  { apply filter_ext. intros p. unfold Qltb. rewrite negb_involutive.
    reflexivity. }
  rewrite Hneg, filter_length. subst pnl. apply length_map.
Qed.

Lemma winners_and_losers_split_the_ledger_witness :
  exists r,
    run_backtest sqrt_rational pow_rational sample_bars None = Ok r /\
    (length (filter (fun p => Qltb 0 p) (map PnL_USD (r_trades r)))
     + length (filter (fun p => Qle_bool p 0) (map PnL_USD (r_trades r)))
     = Total_Trades (r_metrics r))%nat.
Proof.
  eexists.
  assert (Hr : run_backtest sqrt_rational pow_rational sample_bars None
               = Ok ?[r]) by (vm_compute; reflexivity).
  split; [exact Hr|].
  apply (winners_and_losers_split_the_ledger sqrt_rational pow_rational
           _ _ _ _ (run_backtest_metrics _ _ _ _ _ Hr)).
Defined.
